(** * Bitbucket to GitHub issue migration (migrate.py): a shallow embedding

    The script is Python 2.  Its data are JSON payloads (dictionaries, lists,
    unicode text, integers, booleans, null), command-line options, and two
    remote services.  The embedding keeps that shape:

    - text is a list of code points ([list N]); Python 2 has two kinds of
      strings, [unicode] and byte [str], and the script mixes them, so values
      carry both ([VUni], [VStr]);
    - a dictionary is a [gmap] from text to values;
    - a Python exception is an explicit [Raise] result;
    - the two services are scripted: the world holds the answers they are
      going to give, and every request, call and printed line is appended to
      a trace.

    Left out: the parsing of the command line, the password prompts and the
    construction of the openers ([get_bitbucket_opener], [auth_basic_opener];
    the header of the latter lacks its colon in the source, so the script
    as it stands does not load: the functions are embedded as they are
    written). *)

From Stdlib Require Import ZArith Ascii String DecimalString.
From stdpp Require Import gmap list fin_maps sorting.

Set Warnings "-register-all".
Set Default Proof Using "Type".
Local Open Scope list_scope.

(** ** Text *)

Module Text.

Abbreviation text := (list N).

(** A literal of the source, as code points. *)
Definition u (s : string) : text := map N_of_ascii (list_ascii_of_string s).

Definition nl : text := [10%N].

Definition text_eqb (a b : text) : bool := bool_decide (a = b).

Definition is_ascii (s : text) : bool := forallb (fun c => (c <? 128)%N) s.

(** [s.startswith(p)] *)
Fixpoint startswith (p s : text) : bool :=
  match p, s with
  | [], _ => true
  | _ :: _, [] => false
  | a :: p', b :: s' => (a =? b)%N && startswith p' s'
  end.

(** The first occurrence of [sep] in [s]: the text before it and the text
    after it. *)
Fixpoint find_split (sep s : text) : option (text * text) :=
  if startswith sep s then Some ([], drop (length sep) s)
  else match s with
       | [] => None
       | c :: rest =>
           match find_split sep rest with
           | Some (before, after) => Some (c :: before, after)
           | None => None
           end
       end.

(** [sep in s] *)
Definition contains (sep s : text) : bool :=
  match find_split sep s with Some _ => true | None => false end.

(** [s.partition(sep)]: [(before, sep, after)], or [s] and two empty
    texts when [sep] does not occur. *)
Definition partition (sep s : text) : text * text * text :=
  match find_split sep s with
  | Some (before, after) => (before, sep, after)
  | None => (s, [], [])
  end.

(** [s.replace(old, new)] for a non-empty [old]: occurrences are replaced
    from the left and do not overlap; [skip] counts the characters of an
    occurrence still to be dropped. *)
Fixpoint replace_from (old new : text) (skip : nat) (s : text) : text :=
  match s with
  | [] => []
  | c :: rest =>
      match skip with
      | S k => replace_from old new k rest
      | O =>
          if startswith old s
          then new ++ replace_from old new (length old - 1) rest
          else c :: replace_from old new 0 rest
      end
  end.

Definition replace (old new s : text) : text := replace_from old new 0 s.

(** The line boundaries of [unicode.splitlines]. *)
Definition is_linebreak (c : N) : bool :=
  bool_decide (c ∈ [10; 11; 12; 13; 28; 29; 30; 133; 8232; 8233]%N).

(** [s.splitlines()]: [cur] is the line being read, reversed; [after_cr]
    tells that the previous character was a carriage return, so that a
    line feed now belongs to the same boundary. *)
Fixpoint splitlines_from (cur : text) (after_cr : bool) (s : text) : list text :=
  match s with
  | [] => match cur with [] => [] | _ => [rev cur] end
  | c :: rest =>
      if after_cr && (c =? 10)%N then splitlines_from [] false rest
      else if is_linebreak c
           then rev cur :: splitlines_from [] (c =? 13)%N rest
           else splitlines_from (c :: cur) false rest
  end.

Definition splitlines (s : text) : list text := splitlines_from [] false s.

(** [sep.join(items)] *)
Fixpoint join (sep : text) (items : list text) : text :=
  match items with
  | [] => []
  | [x] => x
  | x :: rest => x ++ sep ++ join sep rest
  end.

(** [str(z)] for an integer. *)
Definition decimal (z : Z) : text := u (NilZero.string_of_int (Z.to_int z)).

(** [s.encode('utf-8')] on unicode text. *)
Definition utf8_char (c : N) : text :=
  if (c <? 128)%N then [c]
  else if (c <? 2048)%N then
    [192 + c / 64; 128 + c mod 64]%N
  else if (c <? 65536)%N then
    [224 + c / 4096; 128 + (c / 64) mod 64; 128 + c mod 64]%N
  else
    [240 + c / 262144; 128 + (c / 4096) mod 64; 128 + (c / 64) mod 64;
     128 + c mod 64]%N.

Definition utf8 (s : text) : text := concat (map utf8_char s).

End Text.
Export Text.

#[global] Arguments u : simpl never.

(** ** Values and results *)

(** A JSON payload as [json.loads] delivers it, and the values the script
    computes from it.  [VUni] is Python 2 [unicode], [VStr] a byte [str]. *)
Inductive value : Type :=
| VNone
| VBool (b : bool)
| VInt (z : Z)
| VUni (s : text)
| VStr (s : text)
| VList (l : list value)
| VDict (d : gmap text value).

Abbreviation dict := (gmap text value).

Inductive exn : Type :=
| KeyError (k : text)
| TypeError
| AttributeError
| IndexError
| ValueError
| UnicodeDecodeError
| UnicodeEncodeError
| HTTPError (code : Z) (msg message : text)
| URLError.

(** The result of running a piece of the script.  [Unmodelled] marks the
    few places where Python's answer depends on what the embedding leaves
    out (the [repr] of a container, the hash order of a dictionary);
    [Starved] is a run that waits for an answer the scripted service does
    not hold. *)
Inductive res (A : Type) : Type :=
| Ok (a : A)
| Raise (e : exn)
| Unmodelled
| Starved.
Arguments Ok {A} a.
Arguments Raise {A} e.
Arguments Unmodelled {A}.
Arguments Starved {A}.

Definition res_bind {A B} (r : res A) (k : A -> res B) : res B :=
  match r with
  | Ok a => k a
  | Raise e => Raise e
  | Unmodelled => Unmodelled
  | Starved => Starved
  end.

Notation "'let!' x ':=' r 'in' k" := (res_bind r (fun x => k))
  (at level 10, x pattern, r at level 200, k at level 200).

Module Py.

(** [bool(v)] *)
Definition truthy (v : value) : bool :=
  match v with
  | VNone => false
  | VBool b => b
  | VInt z => negb (z =? 0)%Z
  | VUni s | VStr s => match s with [] => false | _ => true end
  | VList l => match l with [] => false | _ => true end
  | VDict d => match map_to_list d with [] => false | _ => true end
  end.

(** [v[k]] for a string key [k]. *)
Definition subscript (v : value) (k : text) : res value :=
  match v with
  | VDict d => match d !! k with Some x => Ok x | None => Raise (KeyError k) end
  | _ => Raise TypeError
  end.

(** [d.get(k)] and [k in d] on a dictionary. *)
Definition get (d : dict) (k : text) : value := default VNone (d !! k).
Definition has_key (d : dict) (k : text) : bool := bool_decide (is_Some (d !! k)).

(** [unicode(v)], which is also how a unicode template renders a field. *)
Definition to_unicode (v : value) : res text :=
  match v with
  | VNone => Ok (u "None")
  | VBool b => Ok (if b then u "True" else u "False")
  | VInt z => Ok (decimal z)
  | VUni s => Ok s
  | VStr s => if is_ascii s then Ok s else Raise UnicodeDecodeError
  | VList _ | VDict _ => Unmodelled
  end.

(** [str(v)], which is how a byte-string template renders a field. *)
Definition to_str (v : value) : res text :=
  match v with
  | VNone => Ok (u "None")
  | VBool b => Ok (if b then u "True" else u "False")
  | VInt z => Ok (decimal z)
  | VUni s => if is_ascii s then Ok s else Raise UnicodeEncodeError
  | VStr s => Ok s
  | VList _ | VDict _ => Unmodelled
  end.

(** [v.encode('utf-8')]: a byte string is first decoded as ASCII. *)
Definition encode_utf8 (v : value) : res text :=
  match v with
  | VUni s => Ok (utf8 s)
  | VStr s => if is_ascii s then Ok s else Raise UnicodeDecodeError
  | _ => Raise AttributeError
  end.

(** [v == lit] for an ASCII literal [lit]. *)
Definition eq_literal (v : value) (lit : text) : bool :=
  match v with
  | VUni s | VStr s => text_eqb s lit
  | _ => false
  end.

(** The items [for x in v] visits. *)
Definition iterate (v : value) : res (list value) :=
  match v with
  | VList l => Ok l
  | VUni s => Ok (map (fun c => VUni [c]) s)
  | VStr s => Ok (map (fun c => VStr [c]) s)
  | VDict d => match map_to_list d with [] => Ok [] | _ => Unmodelled end
  | VNone | VBool _ | VInt _ => Raise TypeError
  end.

Fixpoint map_res {A B} (f : A -> res B) (l : list A) : res (list B) :=
  match l with
  | [] => Ok []
  | x :: rest => let! y := f x in let! ys := map_res f rest in Ok (y :: ys)
  end.

Definition is_digit (c : N) : bool := (48 <=? c)%N && (c <=? 57)%N.

(** [template.format(...)] once the arguments are rendered, for the
    field forms that occur in the script: [{}] (numbered automatically),
    [{0}] to [{9}], and the doubled braces. *)
Fixpoint fill (tpl : text) (auto : nat) (args : list text) : res text :=
  match tpl with
  | [] => Ok []
  | c :: rest =>
      if (c =? 123)%N then
        match rest with
        | [] => Raise ValueError
        | d :: rest1 =>
            if (d =? 123)%N then
              let! r := fill rest1 auto args in Ok (c :: r)
            else if (d =? 125)%N then
              match args !! auto with
              | None => Raise IndexError
              | Some a => let! r := fill rest1 (S auto) args in Ok (a ++ r)
              end
            else
              match rest1 with
              | e :: rest2 =>
                  if is_digit d && (e =? 125)%N then
                    match args !! N.to_nat (d - 48) with
                    | None => Raise IndexError
                    | Some a => let! r := fill rest2 auto args in Ok (a ++ r)
                    end
                  else Unmodelled
              | [] => Raise ValueError
              end
        end
      else if (c =? 125)%N then
        match rest with
        | d :: rest1 =>
            if (d =? 125)%N then let! r := fill rest1 auto args in Ok (c :: r)
            else Raise ValueError
        | [] => Raise ValueError
        end
      else let! r := fill rest auto args in Ok (c :: r)
  end.

(** [format] on a unicode template and on a byte-string template. *)
Definition format_unicode (tpl : text) (args : list value) : res text :=
  let! rendered := map_res to_unicode args in fill tpl 0 rendered.

Definition format_str (tpl : text) (args : list value) : res text :=
  let! rendered := map_res to_str args in fill tpl 0 rendered.

(** [sep.join(items)] on values: every item must be a string; the result is unicode
    as soon as one item is, and then the byte strings are decoded. *)
Definition is_unicode (v : value) : bool :=
  match v with VUni _ => true | _ => false end.

Definition join_item (any_unicode : bool) (v : value) : res text :=
  match v with
  | VUni s => Ok s
  | VStr s =>
      if any_unicode && negb (is_ascii s) then Raise UnicodeDecodeError else Ok s
  | _ => Raise TypeError
  end.

Definition str_join (sep : text) (items : list value) : res value :=
  let any_unicode := existsb is_unicode items in
  let! parts := map_res (join_item any_unicode) items in
  Ok ((if any_unicode then VUni else VStr) (join sep parts)).

End Py.
Export Py.

(** ** The markup translator *)

Definition block_open : text := u "{{{".
Definition block_close : text := u "}}}".
Definition indent_unit : text := u "    ".

(** One turn of the loop of [clean_body]: the lines written so far and the
    [in_block] flag, before and after [line]. *)
Definition clean_line (st : list text * bool) (line : text) : list text * bool :=
  let '(lines, in_block) := st in
  if startswith block_open line || startswith block_close line then
    let '(lines, in_block) :=
      if contains block_open line then
        let '(before, part, after) := partition block_open line in
        (lines ++ [indent_unit ++ after], true)
      else (lines, in_block) in
    if contains block_close line then
      let '(before, part, after) := partition block_close line in
      (lines ++ [indent_unit ++ before], false)
    else (lines, in_block)
  else
    if in_block then (lines ++ [indent_unit ++ line], in_block)
    else (lines ++ [replace block_close (u "`") (replace block_open (u "`") line)],
          in_block).

Definition clean_lines (ls : list text) : list text * bool :=
  fold_left clean_line ls ([], false).

Definition clean_body (body : value) : res text :=
  let! s := to_unicode body in
  Ok (join nl (fst (clean_lines (splitlines s)))).

(** ** Formatters *)

Definition format_user (author_info : value) : res value :=
  if negb (truthy author_info) then Ok (VStr (u "Anonymous"))
  else
    let! first := subscript author_info (u "first_name") in
    let! named :=
      if truthy first
      then let! last := subscript author_info (u "last_name") in Ok (truthy last)
      else Ok false in
    if named then
      let! first := subscript author_info (u "first_name") in
      let! last := subscript author_info (u "last_name") in
      str_join (u " ") [first; last]
    else
      match author_info with
      | VDict d =>
          if has_key d (u "username") then
            let! name := subscript author_info (u "username") in
            let! link := format_str (u "[{0}](http://bitbucket.org/{0})") [name] in
            Ok (VStr link)
          else Ok VNone
      | _ => Raise TypeError
      end.

Definition format_name (issue : dict) : res value :=
  if has_key issue (u "reported_by")
  then let! who := subscript (VDict issue) (u "reported_by") in format_user who
  else Ok (VStr (u "Anonymous")).

(** The parsed command line ([read_arguments]).  The positional arguments
    are byte strings; [dry_run] and [bitbucket_username] are [store_true]
    flags and [start] is an integer. *)
Record options : Type := {
  bitbucket_accountname : text;
  bitbucket_repo : text;
  github_username : text;
  github_repo : text;
  dry_run : bool;
  start : Z;
  bitbucket_username : bool
}.

Definition body_template : text :=
  u "{}" ++ nl ++ nl ++
  u "{}" ++ nl ++
  u "- Bitbucket: https://bitbucket.org/{}/{}/issue/{}" ++ nl ++
  u "- Originally reported by: {}" ++ nl ++
  u "- Originally created at: {}" ++ nl.

Definition separator : text := concat (replicate 40 (u "-")).

Definition format_body (opts : options) (issue : dict) : res text :=
  let! content := clean_body (get issue (u "content")) in
  let! local_id := subscript (VDict issue) (u "local_id") in
  let! name := format_name issue in
  let! created_on := subscript (VDict issue) (u "created_on") in
  format_unicode body_template
    [VUni content; VStr separator;
     VBool (bitbucket_username opts); VStr (bitbucket_repo opts); local_id;
     name; created_on].

Definition comment_template : text :=
  u "{}" ++ nl ++ nl ++
  u "{}" ++ nl ++
  u "Original comment by: {}" ++ nl.

(** A comment as [get_comments] builds it. *)
Record comment : Type := {
  c_user : value;
  c_created_at : value;
  c_body : text;
  c_number : value
}.

Definition format_comment (c : comment) : res text :=
  let! user := encode_utf8 (c_user c) in
  format_unicode comment_template [VStr (c_body c); VStr separator; VStr user].

(** ** The two services and the trace *)

(** What the script does to the outside, in the order it does it. *)
Inductive event : Type :=
| BbOpen (url : text)
| GhLabelCreate (name : value) (color : text) (user repo : text)
| GhIssueCreate (title body : text) (user repo : text)
| GhIssueUpdate (number : value) (state : text) (user repo : text)
| GhAddLabels (number : value) (labels : list value) (user repo : text)
| GhCommentCreate (number : value) (message : text) (user repo : text)
| Print (items : list value).

(** The answers the source ([bb.open(url).read()], parsed by [json.loads])
    and the target (the calls on [github]) are going to give, in order, and
    the trace so far.  The answer to [github.issues.create] stands for the
    [number] of the new issue, the only part of it the script reads. *)
Record world : Type := {
  bb_answers : list (res value);
  gh_answers : list (res value);
  trace : list event
}.

Definition M (A : Type) : Type := world -> res A * world.

Definition ret {A} (a : A) : M A := fun w => (Ok a, w).

Definition lift {A} (r : res A) : M A := fun w => (r, w).

Definition bind {A B} (m : M A) (k : A -> M B) : M B :=
  fun w =>
    match m w with
    | (Ok a, w') => k a w'
    | (Raise e, w') => (Raise e, w')
    | (Unmodelled, w') => (Unmodelled, w')
    | (Starved, w') => (Starved, w')
    end.

Notation "'do' x '<-' m ';' k" := (bind m (fun x => k))
  (at level 10, x pattern, m at level 200, k at level 200).

Definition log (e : event) (w : world) : world :=
  {| bb_answers := bb_answers w; gh_answers := gh_answers w;
     trace := trace w ++ [e] |}.

(** [json.loads(bb.open(url).read())] *)
Definition bb_open (url : text) : M value :=
  fun w =>
    match bb_answers w with
    | [] => (Starved, log (BbOpen url) w)
    | a :: rest =>
        (a, {| bb_answers := rest; gh_answers := gh_answers w;
               trace := trace w ++ [BbOpen url] |})
    end.

(** A call on the [github] client. *)
Definition gh_call (e : event) : M value :=
  fun w =>
    match gh_answers w with
    | [] => (Starved, log e w)
    | a :: rest =>
        (a, {| bb_answers := bb_answers w; gh_answers := rest;
               trace := trace w ++ [e] |})
    end.

(** The [print] statement. *)
Definition print (items : list value) : M unit :=
  fun w => (Ok tt, log (Print items) w).

Fixpoint for_each {A} (f : A -> M unit) (l : list A) : M unit :=
  match l with
  | [] => ret tt
  | x :: rest => do _ <- f x; for_each f rest
  end.

(** ** Sorting *)

Module Sorting.

(** Lexicographic order on code points: [a < b] on unicode text. *)
Fixpoint text_lt (a b : text) : bool :=
  match a, b with
  | _, [] => false
  | [], _ :: _ => true
  | x :: a', y :: b' => (x <? y)%N || ((x =? y)%N && text_lt a' b')
  end.

(** The rank Python 2 gives to the kinds of values it orders before it
    looks at their content: None first, then the numbers, then text. *)
Definition rank (v : value) : nat :=
  match v with
  | VNone => 0
  | VBool _ | VInt _ => 1
  | VDict _ => 2
  | VList _ => 3
  | VStr _ | VUni _ => 4
  end.

Definition number_of (v : value) : Z :=
  match v with
  | VBool b => if b then 1 else 0
  | VInt z => z
  | _ => 0
  end.

Definition text_of (v : value) : text :=
  match v with
  | VStr s | VUni s => s
  | _ => []
  end.

(** [a < b] between two values that are not containers. *)
Definition value_lt (a b : value) : bool :=
  if (rank a <? rank b)%nat then true
  else if (rank b <? rank a)%nat then false
  else match rank a with
       | 1 => (number_of a <? number_of b)%Z
       | 4 => text_lt (text_of a) (text_of b)
       | _ => false
       end.

Definition is_scalar (v : value) : bool :=
  match v with
  | VList _ | VDict _ => false
  | _ => true
  end.

(** A stable insertion sort: [x] goes before the first element that is not
    below it, so equal keys keep the order they came in. *)
Fixpoint insert_by {A} (lt : A -> A -> bool) (x : A) (l : list A) : list A :=
  match l with
  | [] => [x]
  | y :: rest => if lt y x then y :: insert_by lt x rest else x :: y :: rest
  end.

Definition stable_sort {A} (lt : A -> A -> bool) (l : list A) : list A :=
  foldr (insert_by lt) [] l.

Definition keyed_lt (a b : value * value) : bool := value_lt (fst a) (fst b).

(** [sorted(l, key=keyf)]: the keys are computed first, then the items are
    sorted on them, stably.  Keys that are lists or dictionaries are left
    out of the model. *)
Definition sorted (keyf : value -> res value) (l : list value) : res (list value) :=
  let! keyed := map_res (fun x => let! k := keyf x in Ok (k, x)) l in
  if forallb (fun kx => is_scalar (fst kx)) keyed
  then Ok (map snd (stable_sort keyed_lt keyed))
  else Unmodelled.

End Sorting.
Export Sorting.

(** ** The source fetcher *)

(** [len(v)] *)
Definition py_len (v : value) : res Z :=
  match v with
  | VList l => Ok (Z.of_nat (length l))
  | VUni s | VStr s => Ok (Z.of_nat (length s))
  | VDict d => Ok (Z.of_nat (size d))
  | VNone | VBool _ | VInt _ => Raise TypeError
  end.

Definition connect_hint (url : text) (code : Z) (msg : text) : text :=
  u "Problem trying to connect to bitbucket (" ++ url ++ u "): "
    ++ u "HTTP Error " ++ decimal code ++ u ": " ++ msg
    ++ u " Hint: the bitbucket repository name is case-sensitive.".

(** [bb.open(url)] under the [try] of [get_issues]: an [HTTPError] gets the
    hint as its message and is raised again. *)
Definition bb_open_hinted (url : text) : M value :=
  fun w =>
    match bb_open url w with
    | (Raise (HTTPError code msg _), w') =>
        (Raise (HTTPError code msg (connect_hint url code msg)), w')
    | other => other
    end.

(** One turn of the [while True] loop of [get_issues]: either the loop
    breaks and the issues gathered are returned, or it goes on with more
    issues and the next offset. *)
Inductive turn : Type :=
| Break (issues : list value)
| Continue (issues : list value) (start_id : Z).

Definition get_issues_turn (bb_url : text) (issues : list value) (start_id : Z) : M turn :=
  do url <- lift (format_str (u "{}/?start={}") [VStr bb_url; VInt start_id]);
  do result <- bb_open_hinted url;
  do page <- lift (subscript result (u "issues"));
  if negb (truthy page) then ret (Break issues)
  else
    do items <- lift (iterate page);
    do n <- lift (py_len page);
    ret (Continue (issues ++ items) (start_id + n)).

(** Every turn takes one answer of the source, so [turns] is set to one
    more than the number of answers the source holds and the loop never
    runs out of turns before it runs out of answers. *)
Fixpoint get_issues_loop (turns : nat) (bb_url : text) (issues : list value)
    (start_id : Z) : M (list value) :=
  match turns with
  | O => lift Starved
  | S turns' =>
      do t <- get_issues_turn bb_url issues start_id;
      match t with
      | Break issues => ret issues
      | Continue issues start_id => get_issues_loop turns' bb_url issues start_id
      end
  end.

Definition get_issues (bb_url : text) (start_id : Z) : M (list value) :=
  fun w => get_issues_loop (S (length (bb_answers w))) bb_url [] start_id w.

(** The loop of [get_comments] over the sorted comments. *)
Definition keep_comment (c : value) : res (option comment) :=
  let! content := subscript c (u "content") in
  let body := if truthy content then content else VStr [] in
  if truthy body then
    let! author := subscript c (u "author_info") in
    let! user := format_user author in
    let! created := subscript c (u "utc_created_on") in
    let! bytes := encode_utf8 body in
    let! number := subscript c (u "comment_id") in
    Ok (Some {| c_user := user; c_created_at := created; c_body := bytes;
                c_number := number |})
  else Ok None.

Fixpoint keep_comments (ordered : list value) : res (list comment) :=
  match ordered with
  | [] => Ok []
  | c :: rest =>
      let! kept := keep_comment c in
      let! others := keep_comments rest in
      Ok (match kept with Some x => x :: others | None => others end)
  end.

Definition get_comments (bb_url : text) (issue : value) : M (list comment) :=
  do local_id <- lift (subscript issue (u "local_id"));
  do url <- lift (format_str (u "{}/{}/comments/") [VStr bb_url; local_id]);
  do result <- bb_open url;
  do items <- lift (iterate result);
  do ordered <- lift (sorted (fun c => subscript c (u "utc_created_on")) items);
  lift (keep_comments ordered).

Definition names_of (result : value) : res (list value) :=
  let! items := iterate result in
  map_res (fun m => subscript m (u "name")) items.

Definition get_milestones (bb_url : text) : M (list value) :=
  do url <- lift (format_str (u "{}/milestones/") [VStr bb_url]);
  do result <- bb_open url;
  lift (names_of result).

Definition get_components (bb_url : text) : M (list value) :=
  do url <- lift (format_str (u "{}/components/") [VStr bb_url]);
  do result <- bb_open url;
  lift (names_of result).

(** ** The label provisioner and the publisher *)

Definition IMPORT_COLOR : text := u "888888".
Definition MILESTONE_COLOR : text := u "cccccc".
Definition COMPONENT_COLOR : text := u "357ebd".

Definition labels_of (milestones components : list value) : list (value * text) :=
  [(VStr (u "import"), IMPORT_COLOR)]
    ++ map (fun m => (m, MILESTONE_COLOR)) milestones
    ++ map (fun c => (c, COMPONENT_COLOR)) components.

Definition setup_labels (gh_username gh_repository : text)
    (milestones components : list value) : M unit :=
  for_each
    (fun '(label, color) =>
       do _ <- gh_call (GhLabelCreate label color gh_username gh_repository);
       ret tt)
    (labels_of milestones components).

(** [d.get(k, None)] on something that should be a dictionary. *)
Definition get_attr (v : value) (k : text) : res value :=
  match v with
  | VDict d => Ok (get d k)
  | _ => Raise AttributeError
  end.

Definition push_issue (gh_username gh_repository : text) (issue : dict)
    (body : text) (comments : list comment) : M unit :=
  do title <- lift (encode_utf8 (get issue (u "title")));
  do number <- gh_call (GhIssueCreate title body gh_username gh_repository);
  do _ <-
    (if eq_literal (get issue (u "status")) (u "resolved") then
       do _ <- gh_call (GhIssueUpdate number (u "closed") gh_username gh_repository);
       ret tt
     else if eq_literal (get issue (u "status")) (u "wontfix") then ret tt
     else if eq_literal (get issue (u "status")) (u "on hold") then ret tt
     else if eq_literal (get issue (u "status")) (u "invalid") then ret tt
     else if eq_literal (get issue (u "status")) (u "duplicate") then ret tt
     else if eq_literal (get issue (u "status")) (u "wontfix") then ret tt
     else ret tt);
  do metadata <- lift (subscript (VDict issue) (u "metadata"));
  do milestone <- lift (get_attr metadata (u "milestone"));
  do metadata <- lift (subscript (VDict issue) (u "metadata"));
  do component <- lift (get_attr metadata (u "component"));
  let labels := List.filter truthy [VStr (u "import"); milestone; component] in
  do _ <- gh_call (GhAddLabels number labels gh_username gh_repository);
  do _ <- for_each
            (fun c =>
               do message <- lift (format_comment c);
               do _ <- gh_call (GhCommentCreate number message gh_username gh_repository);
               ret tt)
            comments;
  do title <- lift (subscript (VDict issue) (u "title"));
  do line <- lift (format_unicode (u "Created: {} [{} comments]")
                     [title; VInt (Z.of_nat (length comments))]);
  print [VUni line].

(** ** The orchestrator *)

(** [s.split('/')] *)
Fixpoint split_from (sep : N) (cur : text) (s : text) : list text :=
  match s with
  | [] => [rev cur]
  | c :: rest =>
      if (c =? sep)%N then rev cur :: split_from sep [] rest
      else split_from sep (c :: cur) rest
  end.

Definition split_slash (s : text) : list text := split_from 47 [] s.

(** The body of the loop of the main program, for one issue. *)
Definition migrate_issue (opts : options) (bb_url gh_username gh_repository : text)
    (n_issues : nat) (issue : value) : M unit :=
  do comments <- get_comments bb_url issue;
  match issue with
  | VDict d =>
      if dry_run opts then
        do title <- lift (encode_utf8 (get d (u "title")));
        do line <- lift (format_str (u "Title: {}") [VStr title]);
        do _ <- print [VStr line];
        do body <- lift (format_body opts d);
        do line <- lift (format_str (u "Body: {}") [VStr (utf8 body)]);
        do _ <- print [VStr line];
        print [VStr (u "Comments"); VList (map (fun c => VStr (c_body c)) comments)]
      else
        do body <- lift (format_body opts d);
        do _ <- push_issue gh_username gh_repository d (utf8 body) comments;
        do line <- lift (format_str (u "Created {} issues") [VInt (Z.of_nat n_issues)]);
        print [VStr line]
  | _ => lift (Raise AttributeError)
  end.

(** The loop of the main program: the issues are sorted on their
    identifier and handled one after the other. *)
Definition migrate_all (opts : options) (bb_url gh_username gh_repository : text)
    (issues : list value) : M unit :=
  do ordered <- lift (sorted (fun issue => subscript issue (u "local_id")) issues);
  for_each (migrate_issue opts bb_url gh_username gh_repository (length issues))
           ordered.

(** The main program from the fetch of the milestones on.  Reading the
    command line and the two password prompts are left out; so is the
    choice of the opener, which does not change what is requested. *)
Definition main (opts : options) : M unit :=
  do bb_url <- lift (format_str
                       (u "https://api.bitbucket.org/1.0/repositories/{}/{}/issues")
                       [VStr (bitbucket_accountname opts); VStr (bitbucket_repo opts)]);
  do milestones <- get_milestones bb_url;
  do components <- get_components bb_url;
  do issues <- get_issues bb_url (start opts);
  match split_slash (github_repo opts) with
  | [gh_username; gh_repository] =>
      do _ <- setup_labels gh_username gh_repository milestones components;
      migrate_all opts bb_url gh_username gh_repository issues
  | _ => lift (Raise ValueError)
  end.

(** * Properties of the formatters and of the markup translator *)

Ltac key_ne := let H := fresh in intros H; vm_compute in H; discriminate H.

(** Unfolds the result monad and the value primitives, nothing else: the
    dictionary and the literals stay folded. *)
Ltac py_step :=
  cbn [res_bind negb andb orb subscript truthy get has_key default
       map_res to_unicode to_str encode_utf8 fst snd].

Lemma truthy_dict_nonempty (d : dict) : d ≠ ∅ -> truthy (VDict d) = true.
Proof.
  intros Hne. simpl. destruct (map_to_list d) as [|kv rest] eqn:E; [|reflexivity].
  apply map_to_list_empty_iff in E. contradiction.
Qed.

Lemma has_key_true (d : dict) k v : d !! k = Some v -> has_key d k = true.
Proof. intros H. unfold has_key. apply bool_decide_eq_true. rewrite H. eauto. Qed.

Lemma has_key_false (d : dict) k : d !! k = None -> has_key d k = false.
Proof.
  intros H. unfold has_key. apply bool_decide_eq_false. rewrite H.
  intros [x Hx]. discriminate.
Qed.

Section FormatUser.

Definition ada_lovelace : value :=
  VDict (<[u "first_name" := VUni (u "Ada")]> {[u "last_name" := VUni (u "Lovelace")]}).

Definition only_username (name : value) : value :=
  VDict {[u "username" := name]}.

(** Both names present and non-empty: the names joined by one space. *)
Lemma format_user_named (d : dict) (first last : text) :
  d !! u "first_name" = Some (VUni first) ->
  d !! u "last_name" = Some (VUni last) ->
  first ≠ [] -> last ≠ [] ->
  format_user (VDict d) = Ok (VUni (first ++ u " " ++ last)).
Proof.
  intros Hf Hl Hfne Hlne. unfold format_user.
  rewrite truthy_dict_nonempty by (intros ->; rewrite lookup_empty in Hf; discriminate).
  py_step. rewrite Hf, Hl. py_step.
  destruct first as [|a first]; [contradiction|].
  destruct last as [|b last]; [contradiction|]. reflexivity.
Qed.

(** A record without the key [first_name] makes the subscript raise,
    whatever else it holds. *)
Lemma format_user_no_first_name (d : dict) :
  d ≠ ∅ -> d !! u "first_name" = None ->
  format_user (VDict d) = Raise (KeyError (u "first_name")).
Proof.
  intros Hne Hf. unfold format_user. rewrite truthy_dict_nonempty by assumption.
  py_step. rewrite Hf. reflexivity.
Qed.

(** The handle is used when the first name is there but empty. *)
Lemma format_user_handle (d : dict) (name : text) :
  d !! u "first_name" = Some (VUni []) ->
  d !! u "username" = Some (VUni name) ->
  is_ascii name = true ->
  format_user (VDict d)
  = Ok (VStr (u "[" ++ name ++ u "](http://bitbucket.org/" ++ name ++ u ")")).
Proof.
  intros Hf Hu Hascii. unfold format_user.
  rewrite truthy_dict_nonempty by (intros ->; rewrite lookup_empty in Hf; discriminate).
  py_step. rewrite Hf. py_step. rewrite (has_key_true _ _ _ Hu), Hu.
  unfold format_str. py_step. rewrite Hascii. py_step.
  vm_compute. reflexivity.
Qed.

(** C1. Of the three equations given for [format_user], the first two hold:
    an absent author gives Anonymous and the record of Ada Lovelace gives
    the two names joined by a space.  The third does not: on a record that
    holds only the key username the function subscripts first_name before
    it looks at the handle, and raises KeyError instead of returning the
    link. *)
Theorem C1_format_user_equations :
  format_user VNone = Ok (VStr (u "Anonymous")) /\
  format_user ada_lovelace = Ok (VUni (u "Ada Lovelace")) /\
  (forall name, format_user (only_username name) = Raise (KeyError (u "first_name"))) /\
  format_user (only_username (VUni (u "ada")))
    ≠ Ok (VStr (u "[ada](http://bitbucket.org/ada)")).
Proof.
  split; [vm_compute; reflexivity|]. split; [vm_compute; reflexivity|].
  assert (Hall : forall name,
    format_user (only_username name) = Raise (KeyError (u "first_name"))).
  { intros name. apply format_user_no_first_name.
    - intros H. apply (f_equal (fun m : dict => m !! u "username")) in H.
      rewrite lookup_singleton_eq, lookup_empty in H. discriminate.
    - apply lookup_singleton_ne. key_ne. }
  split; [exact Hall|]. rewrite Hall. discriminate.
Qed.

End FormatUser.

Section CleanBody.

Definition fenced_example : text :=
  u "before" ++ nl ++ u "{{{" ++ nl ++ u "code" ++ nl ++ u "}}}" ++ nl ++ u "after".

(** The loop visits the lines one after the other. *)
Lemma clean_lines_snoc (ls : list text) (line : text) :
  clean_lines (ls ++ [line]) = clean_line (clean_lines ls) line.
Proof. unfold clean_lines. rewrite fold_left_app. reflexivity. Qed.

(** C3 as stated fails: the translator does not turn the fenced example
    into the three lines before, indented code, after. *)
Lemma C3_counterexample :
  clean_body (VUni fenced_example)
    ≠ Ok (u "before" ++ nl ++ u "    code" ++ nl ++ u "after").
Proof. vm_compute. discriminate. Qed.

(** C3, amended. On the fenced example the translator keeps one line for
    each marker line, holding only the indent: the output has five lines,
    before, indent, indented code, indent, after. *)
Theorem C3_clean_body_fenced_example :
  clean_body (VUni fenced_example)
  = Ok (u "before" ++ nl ++ u "    " ++ nl ++ u "    code" ++ nl
          ++ u "    " ++ nl ++ u "after").
Proof. vm_compute. reflexivity. Qed.

(** C4 as stated fails: a line that holds the open marker further in is
    not split and does not open a block. *)
Lemma C4_counterexample :
  contains block_open (u "a{{{b") = true /\
  clean_line ([], false) (u "a{{{b") = ([u "a`b"], false) /\
  clean_line ([], false) (u "a{{{b") ≠ ([indent_unit ++ u "b"], true) /\
  clean_body (VUni (u "a{{{b" ++ nl ++ u "c")) = Ok (u "a`b" ++ nl ++ u "c").
Proof. vm_compute. repeat split; discriminate. Qed.

(** C4, amended. The split happens on the lines that start with one of
    the two markers: when such a line holds the open marker, the text after
    its first occurrence is written, indented by four spaces, and the flag is
    set (a close marker on the same line is handled next and clears it
    again).  A line that holds the open marker only further in is an
    ordinary line: inside a block it is indented whole, outside its markers
    become backquotes; the flag is unchanged. *)
Theorem C4_clean_line_open_marker (lines : list text) (in_block : bool) (line : text) :
  contains block_open line = true ->
  (startswith block_open line || startswith block_close line = true ->
     let after := snd (partition block_open line) in
     let before := fst (fst (partition block_close line)) in
     clean_line (lines, in_block) line
     = if contains block_close line
       then (lines ++ [indent_unit ++ after] ++ [indent_unit ++ before], false)
       else (lines ++ [indent_unit ++ after], true)) /\
  (startswith block_open line || startswith block_close line = false ->
     clean_line (lines, in_block) line
     = if in_block
       then (lines ++ [indent_unit ++ line], true)
       else (lines ++ [replace block_close (u "`") (replace block_open (u "`") line)],
             false)).
Proof.
  intros Hopen. unfold clean_line. split; intros Hstart; rewrite Hstart, ?Hopen.
  - destruct (partition block_open line) as [[b1 p1] a1].
    destruct (partition block_close line) as [[b2 p2] a2].
    cbn [fst snd]. destruct (contains block_close line); [|reflexivity].
    rewrite <- app_assoc. reflexivity.
  - destruct in_block; reflexivity.
Qed.

Lemma C4_clean_line_open_marker_witness :
  contains block_open (u "{{{x = 1") = true /\
  clean_line ([], false) (u "{{{x = 1") = ([u "    x = 1"], true).
Proof.
  split; [vm_compute; reflexivity|].
  destruct (C4_clean_line_open_marker [] false (u "{{{x = 1")) as [H _];
    [vm_compute; reflexivity|].
  rewrite H; [vm_compute; reflexivity | vm_compute; reflexivity].
Defined.

End CleanBody.

Section FormatBody.

Definition flag_text (b : bool) : text := if b then u "True" else u "False".

(** What [format_body] writes, field by field.  The first field of the
    source address is the rendering of the flag [bitbucket_username]; the
    account name does not occur. *)
Lemma format_body_fields (opts : options) (issue : dict)
      (content id name created : text) (v_id v_name v_created : value) :
  clean_body (get issue (u "content")) = Ok content ->
  issue !! u "local_id" = Some v_id -> to_unicode v_id = Ok id ->
  format_name issue = Ok v_name -> to_unicode v_name = Ok name ->
  issue !! u "created_on" = Some v_created -> to_unicode v_created = Ok created ->
  is_ascii (bitbucket_repo opts) = true ->
  format_body opts issue
  = Ok (content ++ nl ++ nl ++
        separator ++ nl ++
        u "- Bitbucket: https://bitbucket.org/" ++ flag_text (bitbucket_username opts)
          ++ u "/" ++ bitbucket_repo opts ++ u "/issue/" ++ id ++ nl ++
        u "- Originally reported by: " ++ name ++ nl ++
        u "- Originally created at: " ++ created ++ nl).
Proof.
  intros Hc Hid Hid' Hname Hname' Hcr Hcr' Hrepo.
  unfold format_body. rewrite Hc. py_step. rewrite Hid. py_step.
  rewrite Hname. py_step. rewrite Hcr. py_step.
  unfold format_unicode. py_step.
  assert (Hsep : is_ascii separator = true) by (vm_compute; reflexivity).
  rewrite Hsep, Hrepo, Hid', Hname', Hcr'. py_step.
  unfold flag_text. destruct (bitbucket_username opts); vm_compute; reflexivity.
Qed.

Definition acme_options : options :=
  {| bitbucket_accountname := u "acme"; bitbucket_repo := u "widgets";
     github_username := u "octo"; github_repo := u "octo/widgets";
     dry_run := false; start := 0; bitbucket_username := false |}.

Definition issue_seven : dict :=
  <[u "local_id" := VInt 7]>
    (<[u "content" := VUni (u "It crashes.")]>
       {[u "created_on" := VUni (u "2012-07-13 09:27:27+00:00")]}).

(** C2. The address that [format_body] writes is not built from the account
    name: for the account acme, the repository widgets and issue 7 the
    first field holds the rendering of the flag [bitbucket_username], and
    the address of the issue under the account does not occur in the body. *)
Theorem C2_format_body_address_ignores_account :
  format_body acme_options issue_seven
  = Ok (u "It crashes." ++ nl ++ nl ++
        separator ++ nl ++
        u "- Bitbucket: https://bitbucket.org/False/widgets/issue/7" ++ nl ++
        u "- Originally reported by: Anonymous" ++ nl ++
        u "- Originally created at: 2012-07-13 09:27:27+00:00" ++ nl) /\
  (forall body, format_body acme_options issue_seven = Ok body ->
     contains (u "https://bitbucket.org/acme/widgets/issue/7") body = false).
Proof.
  assert (H : format_body acme_options issue_seven
  = Ok (u "It crashes." ++ nl ++ nl ++
        separator ++ nl ++
        u "- Bitbucket: https://bitbucket.org/False/widgets/issue/7" ++ nl ++
        u "- Originally reported by: Anonymous" ++ nl ++
        u "- Originally created at: 2012-07-13 09:27:27+00:00" ++ nl))
    by (vm_compute; reflexivity).
  split; [exact H|]. intros body Hbody. rewrite H in Hbody.
  injection Hbody as <-. vm_compute. reflexivity.
Qed.

(** The translator renders an absent body as the word None. *)
Lemma clean_body_none : clean_body VNone = Ok (u "None").
Proof. vm_compute. reflexivity. Qed.

(** C10. When the issue has no content (the key is missing or holds null),
    the translator does not fail and does not give the empty text: it gives
    the four letters None, and the formatted body is that word followed by
    the separator and the provenance block. *)
Theorem C10_format_body_without_content (opts : options) (issue : dict)
      (id name created : text) (v_id v_name v_created : value) :
  issue !! u "content" = None \/ issue !! u "content" = Some VNone ->
  issue !! u "local_id" = Some v_id -> to_unicode v_id = Ok id ->
  format_name issue = Ok v_name -> to_unicode v_name = Ok name ->
  issue !! u "created_on" = Some v_created -> to_unicode v_created = Ok created ->
  is_ascii (bitbucket_repo opts) = true ->
  clean_body (get issue (u "content")) = Ok (u "None") /\
  format_body opts issue
  = Ok (u "None" ++ nl ++ nl ++
        separator ++ nl ++
        u "- Bitbucket: https://bitbucket.org/" ++ flag_text (bitbucket_username opts)
          ++ u "/" ++ bitbucket_repo opts ++ u "/issue/" ++ id ++ nl ++
        u "- Originally reported by: " ++ name ++ nl ++
        u "- Originally created at: " ++ created ++ nl).
Proof.
  intros Hcontent Hid Hid' Hname Hname' Hcr Hcr' Hrepo.
  assert (Hc : clean_body (get issue (u "content")) = Ok (u "None")).
  { unfold get. destruct Hcontent as [-> | ->]; exact clean_body_none. }
  split; [exact Hc|].
  exact (format_body_fields opts issue _ id name created v_id v_name v_created
           Hc Hid Hid' Hname Hname' Hcr Hcr' Hrepo).
Qed.

Definition issue_without_content : dict :=
  <[u "local_id" := VInt 7]>
    {[u "created_on" := VUni (u "2012-07-13 09:27:27+00:00")]}.

Lemma C10_format_body_without_content_witness :
  format_body acme_options issue_without_content
  = Ok (u "None" ++ nl ++ nl ++
        separator ++ nl ++
        u "- Bitbucket: https://bitbucket.org/False/widgets/issue/7" ++ nl ++
        u "- Originally reported by: Anonymous" ++ nl ++
        u "- Originally created at: 2012-07-13 09:27:27+00:00" ++ nl).
Proof.
  refine (eq_trans (proj2 (C10_format_body_without_content
            acme_options issue_without_content
            (u "7") (u "Anonymous") (u "2012-07-13 09:27:27+00:00")
            (VInt 7) (VStr (u "Anonymous")) (VUni (u "2012-07-13 09:27:27+00:00"))
            _ _ _ _ _ _ _ _)) _);
    try (vm_compute; reflexivity).
  left. vm_compute. reflexivity.
Defined.

End FormatBody.

(** * Sorting: the stable sort orders its input and keeps its items *)

Section StableSort.

Context {A : Type} (lt : A -> A -> bool).

Definition not_above (a b : A) : Prop := lt b a = false.

Hypothesis lt_asym : forall a b, lt a b = true -> lt b a = false.
Hypothesis not_above_trans :
  forall a b c, not_above a b -> not_above b c -> not_above a c.

Lemma insert_by_perm (x : A) (l : list A) : insert_by lt x l ≡ₚ x :: l.
Proof using Type.
  induction l as [|y l IH]; cbn [insert_by]; [reflexivity|].
  destruct (lt y x); [|reflexivity].
  rewrite IH. apply Permutation_swap.
Qed.

Lemma stable_sort_perm (l : list A) : stable_sort lt l ≡ₚ l.
Proof using Type.
  induction l as [|x l IH]; [reflexivity|].
  unfold stable_sort in *. cbn [foldr]. rewrite insert_by_perm, IH. reflexivity.
Qed.

Lemma insert_by_sorted (x : A) (l : list A) :
  StronglySorted not_above l -> StronglySorted not_above (insert_by lt x l).
Proof using lt_asym not_above_trans.
  induction 1 as [|y l Hsorted IH Hall]; cbn [insert_by].
  - repeat constructor.
  - destruct (lt y x) eqn:Hyx.
    + constructor; [exact IH|].
      rewrite insert_by_perm. constructor; [|exact Hall].
      apply lt_asym, Hyx.
    + constructor; [constructor; assumption|].
      constructor; [exact Hyx|].
      eapply Forall_impl; [exact Hall|].
      intros z Hz. exact (not_above_trans x y z Hyx Hz).
Qed.

Lemma stable_sort_sorted (l : list A) : StronglySorted not_above (stable_sort lt l).
Proof using lt_asym not_above_trans.
  induction l as [|x l IH]; [constructor|].
  unfold stable_sort in *. cbn [foldr]. apply insert_by_sorted, IH.
Qed.

End StableSort.

Section ValueOrder.

Lemma text_lt_irrefl (a : text) : text_lt a a = false.
Proof.
  induction a as [|x a IH]; [reflexivity|]. cbn [text_lt].
  rewrite N.ltb_irrefl, N.eqb_refl, IH. reflexivity.
Qed.

Lemma text_lt_trichotomy (a b : text) :
  text_lt a b = true \/ a = b \/ text_lt b a = true.
Proof.
  revert b. induction a as [|x a IH]; intros [|y b]; cbn [text_lt]; auto.
  destruct (N.lt_trichotomy x y) as [Hlt | [-> | Hgt]].
  - left. apply N.ltb_lt in Hlt. rewrite Hlt. reflexivity.
  - rewrite N.ltb_irrefl, N.eqb_refl. cbn [orb andb].
    destruct (IH b) as [H | [-> | H]]; auto.
  - right; right. apply N.ltb_lt in Hgt. rewrite Hgt. reflexivity.
Qed.

Lemma text_lt_trans (a b c : text) :
  text_lt a b = true -> text_lt b c = true -> text_lt a c = true.
Proof.
  revert b c. induction a as [|x a IH]; intros [|y b] [|z c]; cbn [text_lt];
    try discriminate; auto.
  intros Hab Hbc.
  apply orb_true_iff in Hab. apply orb_true_iff in Hbc. apply orb_true_iff.
  rewrite !andb_true_iff, !N.ltb_lt, !N.eqb_eq in *.
  destruct Hab as [Hab | [-> Hab]]; destruct Hbc as [Hbc | [-> Hbc]].
  - left. lia.
  - left. lia.
  - left. lia.
  - right. split; [reflexivity|]. exact (IH b c Hab Hbc).
Qed.

Lemma text_lt_asym (a b : text) : text_lt a b = true -> text_lt b a = false.
Proof.
  intros Hab. destruct (text_lt b a) eqn:Hba; [|reflexivity].
  pose proof (text_lt_trans a b a Hab Hba) as H.
  rewrite text_lt_irrefl in H. discriminate.
Qed.

(** [value_lt] is the lexicographic order on rank, number and text. *)
Definition below (a b : value) : Prop :=
  (rank a < rank b)%nat \/
  (rank a = rank b /\
     ((number_of a < number_of b)%Z \/
      (number_of a = number_of b /\ text_lt (text_of a) (text_of b) = true))).

Lemma value_lt_below (a b : value) : value_lt a b = true <-> below a b.
Proof.
  unfold value_lt, below.
  destruct (Nat.ltb_spec (rank a) (rank b)) as [Hab | Hab]; [intuition lia|].
  destruct (Nat.ltb_spec (rank b) (rank a)) as [Hba | Hba].
  { split; [discriminate|]. intros [H | [H _]]; lia. }
  assert (Heq : rank a = rank b) by lia.
  destruct a, b; cbn [rank] in Heq; try discriminate Heq;
    cbn [rank number_of text_of text_lt]; rewrite ?Z.ltb_lt;
    intuition (try lia; try discriminate).
Qed.

Lemma value_lt_asym (a b : value) : value_lt a b = true -> value_lt b a = false.
Proof.
  intros Hab. destruct (value_lt b a) eqn:Hba; [|reflexivity].
  apply value_lt_below in Hab, Hba. unfold below in *.
  destruct Hab as [? | [? [? | [? Hab]]]]; destruct Hba as [? | [? [? | [? Hba]]]];
    try lia.
  apply text_lt_asym in Hab. congruence.
Qed.

Lemma text_not_above_trans (a b c : text) :
  text_lt b a = false -> text_lt c b = false -> text_lt c a = false.
Proof.
  intros Hba Hcb.
  destruct (text_lt_trichotomy a b) as [Hab | [-> | Hab]]; [| exact Hcb | congruence].
  destruct (text_lt_trichotomy b c) as [Hbc | [<- | Hbc]]; [| exact Hba | congruence].
  apply text_lt_asym. exact (text_lt_trans a b c Hab Hbc).
Qed.

Lemma not_below (a b : value) :
  ~ below b a <->
  (rank a < rank b)%nat \/
  (rank a = rank b /\
     ((number_of a < number_of b)%Z \/
      (number_of a = number_of b /\ text_lt (text_of b) (text_of a) = false))).
Proof.
  unfold below. destruct (text_lt (text_of b) (text_of a)); intuition (try lia; try discriminate).
Qed.

Lemma value_not_above_trans (a b c : value) :
  not_above value_lt a b -> not_above value_lt b c -> not_above value_lt a c.
Proof.
  unfold not_above. intros Hba Hcb.
  assert (Hnba : ~ below b a) by (rewrite <- value_lt_below, Hba; discriminate).
  assert (Hncb : ~ below c b) by (rewrite <- value_lt_below, Hcb; discriminate).
  assert (Hnca : ~ below c a).
  { apply not_below in Hnba, Hncb. apply not_below.
    destruct Hnba as [? | [? [? | [? Ht1]]]]; destruct Hncb as [? | [? [? | [? Ht2]]]];
      try (left; lia); try (right; split; [lia|]; left; lia).
    right. split; [lia|]. right. split; [lia|].
    exact (text_not_above_trans _ _ _ Ht1 Ht2). }
  destruct (value_lt c a) eqn:Hca; [|reflexivity].
  apply value_lt_below in Hca. contradiction.
Qed.

End ValueOrder.

(** * The issue fetcher *)

Section GetIssues.

Definition page_url (bb_url : text) (offset : Z) : text :=
  bb_url ++ u "/?start=" ++ decimal offset.

(** The answer [a] is a payload whose member [issues] is the list [p]. *)
Definition holds_page (a : res value) (p : list value) : Prop :=
  exists d : dict, a = Ok (VDict d) /\ d !! u "issues" = Some (VList p).

(** The offsets requested when the source delivers [pages] and then an
    empty page. *)
Fixpoint offsets (start_id : Z) (pages : list (list value)) : list Z :=
  match pages with
  | [] => [start_id]
  | p :: rest => start_id :: offsets (start_id + Z.of_nat (length p)) rest
  end.

Definition opened (bb_url : text) (offs : list Z) : list event :=
  map (fun o => BbOpen (page_url bb_url o)) offs.

Lemma format_page_url (bb_url : text) (offset : Z) :
  format_str (u "{}/?start={}") [VStr bb_url; VInt offset] = Ok (page_url bb_url offset).
Proof.
  unfold page_url, format_str. py_step. generalize (decimal offset). intros digits.
  rewrite <- (app_nil_r digits) at 2. vm_compute. reflexivity.
Qed.

Lemma get_issues_turn_page (bb_url : text) (acc : list value)
    (start_id : Z) (w : world) (d : dict) (p : list value) (rest : list (res value)) :
  bb_answers w = Ok (VDict d) :: rest ->
  d !! u "issues" = Some (VList p) -> p ≠ [] ->
  get_issues_turn bb_url acc start_id w
  = (Ok (Continue (acc ++ p) (start_id + Z.of_nat (length p))),
     {| bb_answers := rest; gh_answers := gh_answers w;
        trace := trace w ++ [BbOpen (page_url bb_url start_id)] |}).
Proof.
  intros Hans Hd Hp. unfold get_issues_turn, bind, lift, bb_open_hinted, bb_open.
  rewrite format_page_url, Hans. cbn [subscript]. rewrite Hd.
  destruct p as [|x p]; [contradiction|]. reflexivity.
Qed.

Lemma get_issues_turn_last (bb_url : text) (acc : list value)
    (start_id : Z) (w : world) (d : dict) (rest : list (res value)) :
  bb_answers w = Ok (VDict d) :: rest ->
  d !! u "issues" = Some (VList []) ->
  get_issues_turn bb_url acc start_id w
  = (Ok (Break acc),
     {| bb_answers := rest; gh_answers := gh_answers w;
        trace := trace w ++ [BbOpen (page_url bb_url start_id)] |}).
Proof.
  intros Hans Hd. unfold get_issues_turn, bind, lift, bb_open_hinted, bb_open.
  rewrite format_page_url, Hans. cbn [subscript]. rewrite Hd. reflexivity.
Qed.

Lemma get_issues_loop_pages (pages : list (list value)) :
  forall (turns : nat) (bb_url : text) (acc : list value) (start_id : Z)
         (w : world) (answers more : list (res value)),
    Forall (fun p => p ≠ []) pages ->
    Forall2 holds_page answers (pages ++ [[]]) ->
    bb_answers w = answers ++ more ->
    (length pages < turns)%nat ->
    get_issues_loop turns bb_url acc start_id w
    = (Ok (acc ++ concat pages),
       {| bb_answers := more; gh_answers := gh_answers w;
          trace := trace w ++ opened bb_url (offsets start_id pages) |}).
Proof.
  induction pages as [|p pages IH];
    intros turns bb_url acc start_id w answers more Hne Hpages Hans Hturns.
  - destruct turns as [|turns]; [cbn in Hturns; lia|].
    cbn [app] in Hpages. inversion Hpages as [|a ? rest ? Ha Hrest]; subst.
    inversion Hrest; subst. destruct Ha as (d & -> & Hd).
    cbn [get_issues_loop]. unfold bind at 1.
    rewrite (get_issues_turn_last bb_url acc start_id w d more Hans Hd).
    cbn [concat]. rewrite app_nil_r. reflexivity.
  - destruct turns as [|turns]; [cbn in Hturns; lia|].
    cbn [app] in Hpages. inversion Hpages as [|a ? rest ? Ha Hrest]; subst.
    destruct Ha as (d & -> & Hd). inversion Hne as [|? ? Hp Hne']; subst.
    cbn [get_issues_loop]. unfold bind at 1.
    rewrite (get_issues_turn_page bb_url acc start_id w d p (rest ++ more) Hans Hd Hp).
    erewrite IH; [| exact Hne' | exact Hrest | reflexivity | cbn in Hturns; lia].
    cbn [concat offsets opened map bb_answers gh_answers trace].
    rewrite <- !app_assoc. reflexivity.
Qed.

(** C6. Against a source that delivers the non-empty pages [pages] and then
    a page without issues, the fetcher returns the issues of all the pages
    in order, has made one request per page and one more for the empty
    page, each at the offset reached so far (the start offset plus the
    number of issues already returned), and has taken no further answer
    from the source. *)
Theorem C6_get_issues_pages (bb_url : text) (start_id : Z)
    (pages : list (list value)) (w : world) (answers more : list (res value)) :
  Forall (fun p => p ≠ []) pages ->
  Forall2 holds_page answers (pages ++ [[]]) ->
  bb_answers w = answers ++ more ->
  exists w',
    get_issues bb_url start_id w = (Ok (concat pages), w') /\
    bb_answers w' = more /\
    trace w' = trace w ++ opened bb_url (offsets start_id pages) /\
    length (opened bb_url (offsets start_id pages)) = S (length pages) /\
    length (concat pages) = sum_list (map length pages).
Proof.
  intros Hne Hpages Hans. eexists. split.
  - unfold get_issues.
    apply (get_issues_loop_pages pages _ bb_url [] start_id w answers more Hne Hpages Hans).
    rewrite Hans, length_app. apply Forall2_length in Hpages.
    rewrite Hpages, length_app. cbn [length]. lia.
  - cbn [bb_answers trace]. repeat split.
    + unfold opened. rewrite length_map. clear. revert start_id.
      induction pages as [|p pages IH]; intros start_id; cbn [offsets length];
        [reflexivity | rewrite IH; reflexivity].
    + clear. induction pages as [|p pages IH]; [reflexivity|].
      cbn [concat map sum_list sum_list_with]. rewrite length_app.
      unfold sum_list in IH. rewrite IH. reflexivity.
Qed.

Definition issue_numbered (i : Z) : value := VDict {[u "local_id" := VInt i]}.

Definition page_of (ids : list Z) : res value :=
  Ok (VDict {[u "issues" := VList (map issue_numbered ids)]}).

Definition issues_url : text :=
  u "https://api.bitbucket.org/1.0/repositories/acme/widgets/issues".

(** A source that delivers pages of 25, 25 and 0 issues. *)
Definition three_pages : world :=
  {| bb_answers := [page_of (seqZ 1 25); page_of (seqZ 26 25); page_of []];
     gh_answers := []; trace := [] |}.

Lemma C6_get_issues_pages_witness :
  exists issues w',
    get_issues issues_url 0 three_pages = (Ok issues, w') /\
    length issues = 50%nat /\
    trace w' = [BbOpen (issues_url ++ u "/?start=0");
                BbOpen (issues_url ++ u "/?start=25");
                BbOpen (issues_url ++ u "/?start=50")] /\
    bb_answers w' = [].
Proof.
  destruct (C6_get_issues_pages issues_url 0
              [map issue_numbered (seqZ 1 25); map issue_numbered (seqZ 26 25)]
              three_pages (bb_answers three_pages) [])
    as (w' & Hrun & Hans & Htrace & Hcount & Hlen).
  - constructor; [key_ne|]. constructor; [key_ne|]. constructor.
  - repeat (constructor; [eexists; split; [reflexivity | vm_compute; reflexivity]|]).
    constructor.
  - vm_compute. reflexivity.
  - eexists. exists w'. split; [exact Hrun|].
    split; [vm_compute; reflexivity|].
    split; [rewrite Htrace; vm_compute; reflexivity | exact Hans].
Defined.

(** A turn that does not fail has taken one answer of the source. *)
Lemma get_issues_turn_takes (bb_url : text) (acc : list value) (start_id : Z)
    (w w' : world) (t : turn) :
  get_issues_turn bb_url acc start_id w = (Ok t, w') ->
  length (bb_answers w) = S (length (bb_answers w')).
Proof.
  unfold get_issues_turn, bind, lift, bb_open_hinted, bb_open, ret.
  destruct (format_str _ _) as [url| | |]; try discriminate.
  destruct (bb_answers w) as [|a rest]; [discriminate|].
  destruct a as [result|e| |]; try discriminate; [|destruct e; discriminate].
  destruct (subscript result _) as [page| | |]; try discriminate.
  destruct (negb (truthy page)).
  - intros [= _ <-]. reflexivity.
  - destruct (iterate page) as [items| | |]; try discriminate.
    destruct (py_len page) as [k| | |]; try discriminate.
    intros [= _ <-]. reflexivity.
Qed.

(** The number of turns given to the loop is never what stops it: with
    more turns than answers the loop does the same. *)
Lemma get_issues_loop_turns (n : nat) :
  forall (turns : nat) (bb_url : text) (acc : list value) (start_id : Z) (w : world),
    length (bb_answers w) = n -> (n < turns)%nat ->
    get_issues_loop turns bb_url acc start_id w
    = get_issues_loop (S n) bb_url acc start_id w.
Proof.
  induction n as [|n IH]; intros turns bb_url acc start_id w Hlen Hturns;
    (destruct turns as [|turns]; [lia|]);
    cbn [get_issues_loop]; unfold bind;
    destruct (get_issues_turn bb_url acc start_id w) as [[t| | |] w'] eqn:Hturn;
    try reflexivity; apply get_issues_turn_takes in Hturn;
    destruct t as [done | acc' start']; try reflexivity; try lia.
  apply IH; lia.
Qed.

End GetIssues.

(** * The label provisioner and the publisher *)

Section Target.

(** The world after [n] calls on the target that were all answered. *)
Definition answered (w : world) (vs : list value) (n : nat) (es : list event) : world :=
  {| bb_answers := bb_answers w; gh_answers := map Ok (drop n vs);
     trace := trace w ++ es |}.

Lemma gh_call_answered (e : event) (w : world) (v : value) (vs : list value) :
  gh_answers w = map Ok (v :: vs) ->
  gh_call e w = (Ok v, answered w (v :: vs) 1 [e]).
Proof. intros H. unfold gh_call. rewrite H. reflexivity. Qed.

(** A loop that makes one call per item, against a target that answers. *)
Lemma for_each_calls {A : Type} (f : A -> M unit) (mk : A -> event) (l : list A) :
  (forall x w, f x w = (do _ <- gh_call (mk x); ret tt) w) ->
  forall (w : world) (vs : list value),
    gh_answers w = map Ok vs -> (length l <= length vs)%nat ->
    for_each f l w = (Ok tt, answered w vs (length l) (map mk l)).
Proof.
  intros Hf. induction l as [|x l IH]; intros w vs Hans Hlen.
  - cbn [for_each ret length map]. unfold answered. rewrite drop_0, app_nil_r, <- Hans.
    destruct w; reflexivity.
  - destruct vs as [|v vs]; [cbn in Hlen; lia|].
    cbn [for_each]. unfold bind at 1. rewrite Hf. unfold bind at 1.
    rewrite (gh_call_answered _ w v vs Hans). unfold ret at 1.
    rewrite (IH _ vs); [| reflexivity | cbn in Hlen; lia].
    unfold answered. cbn [bb_answers gh_answers trace length map drop].
    rewrite <- app_assoc. reflexivity.
Qed.

Definition label_event (user repo : text) (lc : value * text) : event :=
  GhLabelCreate (fst lc) (snd lc) user repo.

(** C8. The labels are the import label, then one label per milestone, then
    one per component, each with the colour of its kind, and against a
    target that answers they are created one after the other in that order.
    For the milestones v1, v2 and the component ui these are import, v1, v2
    and ui, each once. *)
Theorem C8_setup_labels_order (user repo : text) (milestones components : list value)
    (w : world) (vs : list value) :
  gh_answers w = map Ok vs ->
  (S (length milestones + length components) <= length vs)%nat ->
  labels_of milestones components
  = (VStr (u "import"), u "888888")
      :: map (fun m => (m, u "cccccc")) milestones
      ++ map (fun c => (c, u "357ebd")) components /\
  (exists w',
     setup_labels user repo milestones components w = (Ok tt, w') /\
     trace w' = trace w ++ map (label_event user repo) (labels_of milestones components)) /\
  (let names := map fst (labels_of [VUni (u "v1"); VUni (u "v2")] [VUni (u "ui")]) in
   names = [VStr (u "import"); VUni (u "v1"); VUni (u "v2"); VUni (u "ui")] /\
   NoDup names).
Proof.
  intros Hans Hlen. split; [reflexivity|]. split.
  - eexists. split.
    + unfold setup_labels.
      apply (for_each_calls _ (label_event user repo)); [| exact Hans |].
      * intros [label color] w0. reflexivity.
      * unfold labels_of. cbn [length app]. rewrite length_app, !length_map. lia.
    + reflexivity.
  - cbn zeta. split; [reflexivity|].
    unfold labels_of. cbn [map fst app].
    repeat (apply NoDup_cons; split;
            [rewrite ?not_elem_of_cons; repeat split;
             first [apply not_elem_of_nil | key_ne] |]).
    apply NoDup_nil_2.
Qed.

Definition target_answers (vs : list value) : world :=
  {| bb_answers := []; gh_answers := map Ok vs; trace := [] |}.

Lemma C8_setup_labels_order_witness :
  exists w',
    setup_labels (u "octo") (u "widgets") [VUni (u "v1"); VUni (u "v2")] [VUni (u "ui")]
      (target_answers [VNone; VNone; VNone; VNone])
    = (Ok tt, w') /\
    trace w'
    = [GhLabelCreate (VStr (u "import")) (u "888888") (u "octo") (u "widgets");
       GhLabelCreate (VUni (u "v1")) (u "cccccc") (u "octo") (u "widgets");
       GhLabelCreate (VUni (u "v2")) (u "cccccc") (u "octo") (u "widgets");
       GhLabelCreate (VUni (u "ui")) (u "357ebd") (u "octo") (u "widgets")].
Proof.
  destruct (C8_setup_labels_order (u "octo") (u "widgets")
              [VUni (u "v1"); VUni (u "v2")] [VUni (u "ui")]
              (target_answers [VNone; VNone; VNone; VNone]) [VNone; VNone; VNone; VNone])
    as (_ & (w' & Hrun & Htrace) & _).
  - reflexivity.
  - cbn [length]. lia.
  - exists w'. split; [exact Hrun|]. rewrite Htrace. reflexivity.
Defined.

Lemma bind_ok {A B : Type} (m : M A) (k : A -> M B) (w w' : world) (a : A) :
  m w = (Ok a, w') -> bind m k w = k a w'.
Proof. intros H. unfold bind. rewrite H. reflexivity. Qed.

Lemma bind_lift_ok {A B : Type} (r : res A) (k : A -> M B) (w : world) (a : A) :
  r = Ok a -> bind (lift r) k w = k a w.
Proof. intros ->. reflexivity. Qed.

Definition comment_event (number : value) (user repo : text) (message : text) : event :=
  GhCommentCreate number message user repo.

Lemma for_each_comments (number : value) (user repo : text) (comments : list comment) :
  forall (messages : list text) (w : world) (vs : list value),
    map_res format_comment comments = Ok messages ->
    gh_answers w = map Ok vs -> (length comments <= length vs)%nat ->
    for_each
      (fun c =>
         do message <- lift (format_comment c);
         do _ <- gh_call (GhCommentCreate number message user repo);
         ret tt)
      comments w
    = (Ok tt, answered w vs (length comments) (map (comment_event number user repo) messages)).
Proof.
  induction comments as [|c comments IH]; intros messages w vs Hfmt Hans Hlen.
  - cbn [map_res] in Hfmt. injection Hfmt as <-.
    cbn [for_each ret length map]. unfold answered.
    rewrite drop_0, app_nil_r, <- Hans. destruct w; reflexivity.
  - cbn [map_res] in Hfmt.
    destruct (format_comment c) as [message| | |] eqn:Hc; try discriminate Hfmt.
    destruct (map_res format_comment comments) as [others| | |] eqn:Hrest;
      try discriminate Hfmt.
    cbn [res_bind] in Hfmt. injection Hfmt as <-.
    destruct vs as [|v vs]; [cbn in Hlen; lia|].
    cbn [for_each]. rewrite (bind_ok _ _ w (answered w (v :: vs) 1
                                [GhCommentCreate number message user repo]) tt).
    + rewrite (IH others _ vs eq_refl); [| reflexivity | cbn in Hlen; lia].
      unfold answered, comment_event.
      cbn [bb_answers gh_answers trace length map drop].
      rewrite <- app_assoc. reflexivity.
    + rewrite (bind_lift_ok _ _ w message Hc).
      rewrite (bind_ok _ _ w _ v (gh_call_answered _ w v vs Hans)). reflexivity.
Qed.

(** The label and comment steps of [push_issue], and its last line. *)
Definition finishing (user repo : text) (issue : dict) (comments : list comment)
    (t : text) (number : value) (messages : list text) : list event :=
  [GhAddLabels number
     (List.filter truthy
        [VStr (u "import");
         default VNone (issue !! u "metadata" ≫= fun m =>
                          match m with VDict d => Some (get d (u "milestone")) | _ => None end);
         default VNone (issue !! u "metadata" ≫= fun m =>
                          match m with VDict d => Some (get d (u "component")) | _ => None end)])
     user repo]
    ++ map (comment_event number user repo) messages
    ++ [Print [VUni (u "Created: " ++ t ++ u " [" ++ decimal (Z.of_nat (length comments))
                       ++ u " comments]")]].

(** What [push_issue] does against a target that answers every call. *)
Definition published (user repo : text) (issue : dict) (body : text)
    (comments : list comment) (t : text) (number : value) (messages : list text)
    : list event :=
  [GhIssueCreate (utf8 t) body user repo]
    ++ (if eq_literal (get issue (u "status")) (u "resolved")
        then [GhIssueUpdate number (u "closed") user repo] else [])
    ++ finishing user repo issue comments t number messages.

Definition is_update (e : event) : bool :=
  match e with GhIssueUpdate _ _ _ _ => true | _ => false end.

Definition state_updates (es : list event) : list event := List.filter is_update es.

Lemma finishing_no_update (user repo : text) (issue : dict) (comments : list comment)
    (t : text) (number : value) (messages : list text) :
  state_updates (finishing user repo issue comments t number messages) = [].
Proof.
  unfold finishing, state_updates. rewrite !List.filter_app.
  cbn [List.filter is_update app].
  induction messages as [|m messages IH]; [reflexivity | exact IH].
Qed.

Lemma created_line (t : text) (n : Z) :
  format_unicode (u "Created: {} [{} comments]") [VUni t; VInt n]
  = Ok (u "Created: " ++ t ++ u " [" ++ decimal n ++ u " comments]").
Proof.
  unfold format_unicode. py_step. generalize (decimal n). intros digits.
  vm_compute. reflexivity.
Qed.

Lemma push_issue_trace (user repo : text) (issue : dict) (body : text)
    (comments : list comment) (w : world) (t : text) (metadata : dict)
    (messages : list text) (number v1 v2 : value) (rest : list value) :
  issue !! u "title" = Some (VUni t) ->
  issue !! u "metadata" = Some (VDict metadata) ->
  map_res format_comment comments = Ok messages ->
  gh_answers w = map Ok (number :: v1 :: v2 :: rest) ->
  (length comments <= length rest)%nat ->
  exists w',
    push_issue user repo issue body comments w = (Ok tt, w') /\
    trace w' = trace w ++ published user repo issue body comments t number messages.
Proof.
  intros Ht Hm Hfmt Hans Hlen. unfold push_issue, published, finishing.
  assert (Htitle : get issue (u "title") = VUni t) by (unfold get; rewrite Ht; reflexivity).
  rewrite Htitle. rewrite (bind_lift_ok _ _ w (utf8 t) eq_refl).
  rewrite (bind_ok _ _ w _ number (gh_call_answered _ w number _ Hans)).
  rewrite Hm. cbn [mbind option_bind default from_option id].
  set (w1 := answered w (number :: v1 :: v2 :: rest) 1 [GhIssueCreate (utf8 t) body user repo]).
  assert (Hans1 : gh_answers w1 = map Ok (v1 :: v2 :: rest)) by reflexivity.
  destruct (eq_literal (get issue (u "status")) (u "resolved")) eqn:Hres.
  - rewrite (bind_ok _ _ w1
               (answered w1 (v1 :: v2 :: rest) 1 [GhIssueUpdate number (u "closed") user repo]) tt);
      [| rewrite (bind_ok _ _ w1 _ v1 (gh_call_answered _ w1 v1 _ Hans1)); reflexivity].
    set (w2 := answered w1 _ 1 _).
    assert (Hans2 : gh_answers w2 = map Ok (v2 :: rest)) by reflexivity.
    cbn [subscript]. rewrite Hm.
    repeat (rewrite (bind_lift_ok _ _ _ _ eq_refl); cbn [get_attr]).
    rewrite (bind_ok _ _ w2 _ v2 (gh_call_answered _ w2 v2 _ Hans2)).
    set (w3 := answered w2 _ 1 _).
    rewrite (bind_ok _ _ w3 _ tt
               (for_each_comments number user repo comments messages w3 rest Hfmt eq_refl Hlen)).
    rewrite Ht. rewrite (bind_lift_ok _ _ _ _ eq_refl).
    rewrite (bind_lift_ok _ _ _ _ (created_line t _)).
    eexists. split; [reflexivity|].
    unfold print, log, w3, w2, w1, answered. cbn [trace].
    rewrite <- !app_assoc. reflexivity.
  - repeat match goal with
           | |- context [if ?c then @ret unit tt else @ret unit tt] =>
               replace (if c then @ret unit tt else @ret unit tt) with (@ret unit tt)
                 by (destruct c; reflexivity)
           end.
    rewrite (bind_ok _ _ w1 w1 tt eq_refl).
    cbn [subscript]. rewrite Hm.
    repeat (rewrite (bind_lift_ok _ _ _ _ eq_refl); cbn [get_attr]).
    rewrite (bind_ok _ _ w1 _ v1 (gh_call_answered _ w1 v1 _ Hans1)).
    set (w3 := answered w1 _ 1 _).
    rewrite (bind_ok _ _ w3 _ tt
               (for_each_comments number user repo comments messages w3 (v2 :: rest) Hfmt
                  eq_refl (Nat.le_trans _ _ _ Hlen (Nat.le_succ_diag_r _)))).
    rewrite Ht. rewrite (bind_lift_ok _ _ _ _ eq_refl).
    rewrite (bind_lift_ok _ _ _ _ (created_line t _)).
    eexists. split; [reflexivity|].
    unfold print, log, w3, w1, answered. cbn [trace].
    rewrite <- !app_assoc. reflexivity.
Qed.

(** C7. Against a target that answers every call, an issue whose status is
    resolved gets exactly one state update, to closed, right after it is
    created; an issue whose status is wontfix, on-hold (or on hold, as the
    script spells it), invalid or duplicate gets none, and the publisher
    goes on without failing to the label step, the comments and its last
    line. *)
Theorem C7_push_issue_status (user repo : text) (issue : dict) (body : text)
    (comments : list comment) (w : world) (t : text) (metadata : dict)
    (messages : list text) (number v1 v2 : value) (rest : list value) :
  issue !! u "title" = Some (VUni t) ->
  issue !! u "metadata" = Some (VDict metadata) ->
  map_res format_comment comments = Ok messages ->
  gh_answers w = map Ok (number :: v1 :: v2 :: rest) ->
  (length comments <= length rest)%nat ->
  let create := GhIssueCreate (utf8 t) body user repo in
  let close := GhIssueUpdate number (u "closed") user repo in
  let after := finishing user repo issue comments t number messages in
  state_updates after = [] /\
  (get issue (u "status") = VUni (u "resolved") ->
   exists w',
     push_issue user repo issue body comments w = (Ok tt, w') /\
     trace w' = trace w ++ create :: close :: after /\
     state_updates (create :: close :: after) = [close]) /\
  (forall s : text,
     s ∈ [u "wontfix"; u "on-hold"; u "on hold"; u "invalid"; u "duplicate"] ->
     get issue (u "status") = VUni s ->
     exists w',
       push_issue user repo issue body comments w = (Ok tt, w') /\
       trace w' = trace w ++ create :: after /\
       state_updates (create :: after) = []).
Proof.
  intros Ht Hm Hfmt Hans Hlen create close after.
  pose proof (finishing_no_update user repo issue comments t number messages) as Hafter.
  destruct (push_issue_trace user repo issue body comments w t metadata messages
              number v1 v2 rest Ht Hm Hfmt Hans Hlen) as (w' & Hrun & Htrace).
  unfold published in Htrace. split; [exact Hafter|]. split.
  - intros Hstatus. rewrite Hstatus in Htrace. exists w'.
    split; [exact Hrun|]. split; [exact Htrace|].
    unfold state_updates in *. cbn [List.filter is_update]. fold after in Hafter.
    rewrite Hafter. reflexivity.
  - intros s Hs Hstatus. rewrite Hstatus in Htrace. exists w'.
    split; [exact Hrun|].
    assert (Hnot : eq_literal (VUni s) (u "resolved") = false).
    { rewrite !elem_of_cons, elem_of_nil in Hs.
      destruct Hs as [-> | [-> | [-> | [-> | [-> | []]]]]]; vm_compute; reflexivity. }
    rewrite Hnot in Htrace. split; [exact Htrace|].
    unfold state_updates in *. cbn [List.filter is_update]. exact Hafter.
Qed.

Definition resolved_issue : dict :=
  <[u "title" := VUni (u "Crash on start")]>
    (<[u "status" := VUni (u "resolved")]>
       {[u "metadata" := VDict {[u "milestone" := VUni (u "v1")]}]}).

Definition one_comment : comment :=
  {| c_user := VStr (u "Anonymous"); c_created_at := VUni (u "2012-07-13 09:27:27+00:00");
     c_body := u "Fixed."; c_number := VInt 11 |}.

Lemma C7_push_issue_status_witness :
  exists w',
    push_issue (u "octo") (u "widgets") resolved_issue (u "It crashes.") [one_comment]
      (target_answers [VInt 1; VNone; VNone; VNone])
    = (Ok tt, w') /\
    state_updates (trace w') = [GhIssueUpdate (VInt 1) (u "closed") (u "octo") (u "widgets")].
Proof.
  destruct (C7_push_issue_status (u "octo") (u "widgets") resolved_issue (u "It crashes.")
              [one_comment] (target_answers [VInt 1; VNone; VNone; VNone])
              (u "Crash on start") {[u "milestone" := VUni (u "v1")]}
              [u "Fixed." ++ nl ++ nl ++ separator ++ nl ++ u "Original comment by: Anonymous" ++ nl]
              (VInt 1) VNone VNone [VNone])
    as (_ & Hresolved & _).
  - vm_compute. reflexivity.
  - vm_compute. reflexivity.
  - vm_compute. reflexivity.
  - reflexivity.
  - cbn [length]. lia.
  - destruct Hresolved as (w' & Hrun & Htrace & Hupdates); [vm_compute; reflexivity|].
    exists w'. split; [exact Hrun|]. rewrite Htrace. exact Hupdates.
Defined.

End Target.

(** * The comment fetcher *)

Section Sorted.

(** Sortedness goes through a filter and through a map that respects the
    order on the items that are there. *)
Lemma StronglySorted_filter_bool {A : Type} (R : A -> A -> Prop) (p : A -> bool)
    (l : list A) :
  StronglySorted R l -> StronglySorted R (List.filter p l).
Proof.
  induction 1 as [|x l Hsorted IH Hall]; cbn [List.filter]; [constructor|].
  destruct (p x); [|exact IH]. constructor; [exact IH|].
  apply Forall_forall. intros y Hy. apply list_elem_of_In, List.filter_In in Hy as [Hy _].
  rewrite Forall_forall in Hall. apply Hall, list_elem_of_In, Hy.
Qed.

Lemma StronglySorted_map_where {A B : Type} (R : A -> A -> Prop) (R' : B -> B -> Prop)
    (P : A -> Prop) (f : A -> B) (l : list A) :
  (forall a b, P a -> P b -> R a b -> R' (f a) (f b)) ->
  Forall P l -> StronglySorted R l -> StronglySorted R' (map f l).
Proof.
  intros Hf HP Hsorted. induction Hsorted as [|x l Hsorted IH Hall]; [constructor|].
  inversion HP as [|? ? Hx HPl]; subst. cbn [map]. constructor; [exact (IH HPl)|].
  apply Forall_forall. intros y Hy.
  apply list_elem_of_fmap in Hy as (a & -> & Ha).
  rewrite Forall_forall in HPl, Hall. apply Hf; [exact Hx | exact (HPl a Ha) | exact (Hall a Ha)].
Qed.

Definition in_key_order (keyf : value -> res value) (a b : value) : Prop :=
  forall ka kb, keyf a = Ok ka -> keyf b = Ok kb -> value_lt kb ka = false.

Lemma keyed_items (keyf : value -> res value) (l : list value) :
  forall keys, map_res keyf l = Ok keys ->
    exists keyed,
      map_res (fun x => let! k := keyf x in Ok (k, x)) l = Ok keyed /\
      map snd keyed = l /\ map fst keyed = keys /\
      Forall (fun kx => keyf (snd kx) = Ok (fst kx)) keyed.
Proof.
  induction l as [|x l IH]; intros keys Hkeys; cbn [map_res] in *.
  - injection Hkeys as <-. exists []. repeat split; constructor.
  - destruct (keyf x) as [k| | |] eqn:Hk; try discriminate Hkeys.
    destruct (map_res keyf l) as [ks| | |]; try discriminate Hkeys.
    cbn [res_bind] in *. injection Hkeys as <-.
    destruct (IH ks eq_refl) as (keyed & -> & Hsnd & Hfst & Hall).
    exists ((k, x) :: keyed). cbn [res_bind map fst snd].
    rewrite Hsnd, Hfst. repeat split. constructor; assumption.
Qed.

(** [sorted] returns the items it was given, in the order of their keys. *)
Lemma sorted_ordered (keyf : value -> res value) (l keys : list value) :
  map_res keyf l = Ok keys ->
  forallb is_scalar keys = true ->
  exists l',
    sorted keyf l = Ok l' /\ l' ≡ₚ l /\ StronglySorted (in_key_order keyf) l'.
Proof.
  intros Hkeys Hscalar.
  destruct (keyed_items keyf l keys Hkeys) as (keyed & Hkeyed & Hsnd & Hfst & Hall).
  exists (map snd (stable_sort keyed_lt keyed)). unfold sorted. rewrite Hkeyed.
  cbn [res_bind].
  assert (Hsc : forallb (fun kx : value * value => is_scalar (fst kx)) keyed = true).
  { rewrite <- Hfst in Hscalar. clear -Hscalar.
    induction keyed as [|kx keyed IH]; [reflexivity|].
    cbn [map forallb] in *. apply andb_true_iff in Hscalar as [-> H].
    exact (IH H). }
  rewrite Hsc. split; [reflexivity|]. split.
  - rewrite <- Hsnd. apply Permutation_map, stable_sort_perm.
  - apply (StronglySorted_map_where (not_above keyed_lt) _
             (fun kx => keyf (snd kx) = Ok (fst kx))).
    + intros [ka a] [kb b] Ha Hb Hab ka' kb' Ha' Hb'. cbn [fst snd] in *.
      rewrite Ha in Ha'. rewrite Hb in Hb'. injection Ha' as <-. injection Hb' as <-.
      exact Hab.
    + rewrite stable_sort_perm. exact Hall.
    + apply stable_sort_sorted.
      * intros a b. apply value_lt_asym.
      * intros a b c. apply value_not_above_trans.
Qed.

End Sorted.

Section GetComments.

(** The comment has a body: its content is there and is not empty. *)
Definition has_text (c : value) : bool :=
  match subscript c (u "content") with
  | Ok v => truthy v
  | _ => false
  end.

(** The comment [o] of the output was made from the comment [c] of the
    source. *)
Definition from_source (c : value) (o : comment) : Prop :=
  subscript c (u "utc_created_on") = Ok (c_created_at o) /\
  subscript c (u "comment_id") = Ok (c_number o) /\
  (exists s, subscript c (u "content") = Ok (VUni s) /\ s ≠ [] /\ c_body o = utf8 s) /\
  (exists a, subscript c (u "author_info") = Ok a /\ format_user a = Ok (c_user o)).

(** A comment as the source delivers it: a creation time, an identifier,
    and a content that is null or text; when there is text, an author that
    [format_user] can render. *)
Definition well_formed_comment (c : value) : Prop :=
  exists (d : dict) (ts : text) (number : value),
    c = VDict d /\
    d !! (u "utc_created_on") = Some (VUni ts) /\
    d !! u "comment_id" = Some number /\
    (d !! u "content" = Some VNone \/
     d !! u "content" = Some (VUni []) \/
     exists s a user,
       s ≠ [] /\ d !! u "content" = Some (VUni s) /\
       d !! u "author_info" = Some a /\ format_user a = Ok user).

Lemma utf8_nonempty (s : text) : s ≠ [] -> utf8 s ≠ [].
Proof.
  destruct s as [|c s]; [contradiction|]. intros _. unfold utf8. cbn [map concat].
  unfold utf8_char. repeat destruct (_ <? _)%N; discriminate.
Qed.

Lemma keep_comment_spec (c : value) :
  well_formed_comment c ->
  (has_text c = false /\ keep_comment c = Ok None) \/
  (has_text c = true /\ exists o, keep_comment c = Ok (Some o) /\ from_source c o).
Proof.
  intros (d & ts & number & -> & Hts & Hid & Hcontent).
  unfold has_text, keep_comment, from_source. cbn [subscript].
  destruct Hcontent as [Hc | [Hc | (s & a & user & Hs & Hc & Ha & Huser)]]; rewrite Hc.
  - left. split; reflexivity.
  - left. split; reflexivity.
  - right. destruct s as [|x s]; [contradiction|].
    split; [reflexivity|]. cbn [res_bind truthy]. rewrite Ha. cbn [res_bind].
    rewrite Huser, Hts, Hid. cbn [res_bind encode_utf8].
    eexists. split; [reflexivity|]. cbn [c_created_at c_number c_body c_user].
    repeat split; eauto.
Qed.

Lemma keep_comments_spec (l : list value) :
  Forall well_formed_comment l ->
  exists out, keep_comments l = Ok out /\ Forall2 from_source (List.filter has_text l) out.
Proof.
  induction 1 as [|c l Hc Hl (out & Hout & Hrel)]; [exists []; split; constructor|].
  cbn [keep_comments List.filter]. rewrite Hout.
  destruct (keep_comment_spec c Hc) as [[-> ->] | (-> & o & -> & Ho)]; cbn [res_bind].
  - exists out. split; [reflexivity | exact Hrel].
  - exists (o :: out). split; [reflexivity | constructor; assumption].
Qed.

Lemma filter_bool_perm {A : Type} (p : A -> bool) (l l' : list A) :
  l ≡ₚ l' -> List.filter p l ≡ₚ List.filter p l'.
Proof.
  induction 1 as [|x l l' _ IH|x y l|l l' l'' _ IH1 _ IH2]; cbn [List.filter].
  - reflexivity.
  - destruct (p x); [rewrite IH|]; auto.
  - destruct (p x), (p y); try reflexivity. apply Permutation_swap.
  - etransitivity; eassumption.
Qed.

Lemma comment_keys (l : list value) :
  Forall well_formed_comment l ->
  exists keys,
    map_res (fun c => subscript c (u "utc_created_on")) l = Ok keys /\
    forallb is_scalar keys = true.
Proof.
  induction 1 as [|c l (d & ts & number & -> & Hts & _) _ (keys & Hkeys & Hscalar)].
  - exists []. split; reflexivity.
  - exists (VUni ts :: keys). cbn [map_res subscript]. rewrite Hts, Hkeys.
    split; [reflexivity|]. cbn [forallb is_scalar]. exact Hscalar.
Qed.

(** The order of the output: no comment is created before one that
    precedes it. *)
Definition by_creation (a b : comment) : Prop :=
  value_lt (c_created_at b) (c_created_at a) = false.

Lemma from_source_sorted (kept : list value) (out : list comment) :
  Forall2 from_source kept out ->
  StronglySorted (in_key_order (fun c => subscript c (u "utc_created_on"))) kept ->
  StronglySorted by_creation out.
Proof.
  induction 1 as [|c o kept out Hco Hrel IH]; intros Hsorted; [constructor|].
  inversion Hsorted as [|? ? Hs Hall]; subst. constructor; [exact (IH Hs)|].
  clear IH Hs Hsorted. induction Hrel as [|c' o' kept out Hco' Hrel IH]; constructor.
  - inversion Hall as [|? ? Hcc' _]; subst.
    exact (Hcc' _ _ (proj1 Hco) (proj1 Hco')).
  - inversion Hall; subst. apply IH. assumption.
Qed.

Lemma comments_url (bb_url : text) (v_id : value) (id : text) :
  to_str v_id = Ok id ->
  format_str (u "{}/{}/comments/") [VStr bb_url; v_id]
  = Ok (bb_url ++ u "/" ++ id ++ u "/comments/").
Proof.
  intros Hid. unfold format_str. cbn [map_res to_str res_bind]. rewrite Hid.
  cbn [res_bind]. vm_compute. reflexivity.
Qed.

(** C5. For an issue whose comments the source delivers well formed, the
    fetcher returns: it has asked for the comments of that issue once; its
    output is made of the source comments that have a body (the ones whose
    content is null or empty are left out), each with a non-empty body; and
    no comment of the output is created before one that precedes it,
    whatever the order of delivery. *)
Theorem C5_get_comments_filtered_sorted (bb_url : text) (issue : value) (w : world)
    (v_id : value) (id : text) (payload : list value) (more : list (res value)) :
  subscript issue (u "local_id") = Ok v_id ->
  to_str v_id = Ok id ->
  bb_answers w = Ok (VList payload) :: more ->
  Forall well_formed_comment payload ->
  exists out w',
    get_comments bb_url issue w = (Ok out, w') /\
    trace w' = trace w ++ [BbOpen (bb_url ++ u "/" ++ id ++ u "/comments/")] /\
    (exists kept, kept ≡ₚ List.filter has_text payload /\ Forall2 from_source kept out) /\
    Forall (fun o => c_body o ≠ []) out /\
    StronglySorted by_creation out.
Proof.
  intros Hid Hid' Hans Hwf.
  destruct (comment_keys payload Hwf) as (keys & Hkeys & Hscalar).
  destruct (sorted_ordered _ payload keys Hkeys Hscalar) as (ordered & Hsorted & Hperm & Hord).
  assert (Hwf' : Forall well_formed_comment ordered) by (rewrite Hperm; exact Hwf).
  destruct (keep_comments_spec ordered Hwf') as (out & Hout & Hrel).
  exists out. eexists. split; [|split; [|split; [|split]]].
  - unfold get_comments.
    rewrite (bind_lift_ok _ _ w v_id Hid).
    rewrite (bind_lift_ok _ _ w _ (comments_url bb_url v_id id Hid')).
    erewrite bind_ok; [|unfold bb_open; rewrite Hans; reflexivity].
    rewrite (bind_lift_ok _ _ _ payload eq_refl).
    rewrite (bind_lift_ok _ _ _ ordered Hsorted).
    unfold lift. rewrite Hout. reflexivity.
  - reflexivity.
  - exists (List.filter has_text ordered). split; [|exact Hrel].
    apply filter_bool_perm, Hperm.
  - clear -Hrel. induction Hrel as [|c o kept out Hco _ IH]; constructor; [|exact IH].
    destruct Hco as (_ & _ & (s & _ & Hs & ->) & _). apply utf8_nonempty, Hs.
  - apply (from_source_sorted _ _ Hrel). apply StronglySorted_filter_bool, Hord.
Qed.

Definition source_comment (number : Z) (created : text) (content : value) : value :=
  VDict (<[u "comment_id" := VInt number]>
           (<[u "utc_created_on" := VUni created]>
              (<[u "content" := content]> {[u "author_info" := VNone]}))).

(** Three comments, delivered latest first; the second has no body. *)
Definition delivered : list value :=
  [source_comment 3 (u "2012-07-15 10:00:00+00:00") (VUni (u "Fixed."));
   source_comment 2 (u "2012-07-14 10:00:00+00:00") VNone;
   source_comment 1 (u "2012-07-13 10:00:00+00:00") (VUni (u "Me too."))].

Lemma C5_get_comments_filtered_sorted_witness :
  exists out w',
    get_comments issues_url (issue_numbered 7)
      {| bb_answers := [Ok (VList delivered)]; gh_answers := []; trace := [] |}
    = (Ok out, w') /\
    map c_number out = [VInt 1; VInt 3] /\
    map c_body out = [u "Me too."; u "Fixed."].
Proof.
  destruct (C5_get_comments_filtered_sorted issues_url (issue_numbered 7)
              {| bb_answers := [Ok (VList delivered)]; gh_answers := []; trace := [] |}
              (VInt 7) (u "7") delivered [])
    as (out & w' & Hrun & _).
  - vm_compute. reflexivity.
  - vm_compute. reflexivity.
  - reflexivity.
  - repeat constructor.
    + eexists _, _, _. split; [reflexivity|].
      split; [vm_compute; reflexivity|]. split; [vm_compute; reflexivity|].
      right; right. exists (u "Fixed."), VNone, (VStr (u "Anonymous")).
      split; [key_ne|]. repeat split; vm_compute; reflexivity.
    + eexists _, _, _. split; [reflexivity|].
      split; [vm_compute; reflexivity|]. split; [vm_compute; reflexivity|].
      left. vm_compute. reflexivity.
    + eexists _, _, _. split; [reflexivity|].
      split; [vm_compute; reflexivity|]. split; [vm_compute; reflexivity|].
      right; right. exists (u "Me too."), VNone, (VStr (u "Anonymous")).
      split; [key_ne|]. repeat split; vm_compute; reflexivity.
  - exists out, w'. split; [exact Hrun|].
    vm_compute in Hrun. injection Hrun as <- _. split; vm_compute; reflexivity.
Defined.

End GetComments.

(** * The orchestrator: the order of publication *)

Section Publication.

(** The event that publishes an issue: the call that creates it, or in a
    dry run the line that prints its title. *)
Definition is_pub (e : event) : bool :=
  match e with
  | GhIssueCreate _ _ _ _ => true
  | Print [VStr line] => startswith (u "Title: ") line
  | _ => false
  end.

Definition pubs (es : list event) : list event := List.filter is_pub es.

(** [m] adds events to the trace, none of which publishes an issue. *)
Definition quiet {A : Type} (m : M A) : Prop :=
  forall w, exists es, trace (snd (m w)) = trace w ++ es /\ pubs es = [].

(** [m] adds events to the trace, of which exactly one publishes an issue
    and satisfies [E]; or none, and then [m] has failed. *)
Definition publishes {A : Type} (m : M A) (E : event -> Prop) : Prop :=
  forall w, exists es,
    trace (snd (m w)) = trace w ++ es /\
    ((pubs es = [] /\ forall a, fst (m w) ≠ Ok a) \/
     (exists e, E e /\ pubs es = [e])).

Lemma pubs_app (es1 es2 : list event) : pubs (es1 ++ es2) = pubs es1 ++ pubs es2.
Proof. apply List.filter_app. Qed.

Lemma quiet_lift {A : Type} (r : res A) : quiet (lift r).
Proof. intros w. exists []. cbn. rewrite app_nil_r. split; reflexivity. Qed.

Lemma quiet_ret {A : Type} (a : A) : quiet (ret a).
Proof. intros w. exists []. cbn. rewrite app_nil_r. split; reflexivity. Qed.

Lemma quiet_logged {A : Type} (m : M A) (e : event) :
  is_pub e = false ->
  (forall w, trace (snd (m w)) = trace w ++ [e]) -> quiet m.
Proof.
  intros He Hm w. exists [e]. split; [apply Hm|]. unfold pubs. cbn [List.filter].
  rewrite He. reflexivity.
Qed.

Lemma bb_open_logs (url : text) (w : world) :
  trace (snd (bb_open url w)) = trace w ++ [BbOpen url].
Proof. unfold bb_open. destruct (bb_answers w); reflexivity. Qed.

Lemma gh_call_logs (e : event) (w : world) :
  trace (snd (gh_call e w)) = trace w ++ [e].
Proof. unfold gh_call. destruct (gh_answers w); reflexivity. Qed.

Lemma quiet_bb_open (url : text) : quiet (bb_open url).
Proof. apply (quiet_logged _ (BbOpen url)); [reflexivity | apply bb_open_logs]. Qed.

Lemma quiet_bb_open_hinted (url : text) : quiet (bb_open_hinted url).
Proof.
  apply (quiet_logged _ (BbOpen url)); [reflexivity|]. intros w.
  unfold bb_open_hinted. pose proof (bb_open_logs url w) as H.
  destruct (bb_open url w) as [[a|e| |] w']; try exact H. destruct e; exact H.
Qed.

Lemma quiet_gh_call (e : event) : is_pub e = false -> quiet (gh_call e).
Proof. intros He. apply (quiet_logged _ e He). apply gh_call_logs. Qed.

Lemma quiet_print (items : list value) : is_pub (Print items) = false -> quiet (print items).
Proof. intros He. apply (quiet_logged _ (Print items) He). reflexivity. Qed.

Lemma quiet_bind {A B : Type} (m : M A) (k : A -> M B) :
  quiet m -> (forall a, quiet (k a)) -> quiet (bind m k).
Proof.
  intros Hm Hk w. unfold bind. destruct (Hm w) as (es1 & Ht1 & Hp1).
  destruct (m w) as [[a|e| |] w1]; cbn [snd] in *; try (exists es1; split; assumption).
  destruct (Hk a w1) as (es2 & Ht2 & Hp2). exists (es1 ++ es2).
  rewrite Ht2, Ht1, app_assoc, pubs_app, Hp1, Hp2. split; reflexivity.
Qed.

Lemma quiet_lift_bind {A B : Type} (r : res A) (k : A -> M B) :
  (forall a, r = Ok a -> quiet (k a)) -> quiet (bind (lift r) k).
Proof.
  intros Hk. destruct r as [a| | |]; try exact (quiet_lift _).
  exact (Hk a eq_refl).
Qed.

Lemma quiet_for_each {A : Type} (f : A -> M unit) (l : list A) :
  (forall x, quiet (f x)) -> quiet (for_each f l).
Proof.
  intros Hf. induction l as [|x l IH]; cbn [for_each]; [apply quiet_ret|].
  apply quiet_bind; [apply Hf | intros _; exact IH].
Qed.

Lemma publishes_lift_bind {A B : Type} (r : res A) (k : A -> M B) (E : event -> Prop) :
  (forall a, r = Ok a -> publishes (k a) E) -> publishes (bind (lift r) k) E.
Proof.
  intros Hk. destruct r as [a| | |]; [exact (Hk a eq_refl) | | |];
    intros w; exists []; cbn; rewrite app_nil_r;
    (split; [reflexivity | left; split; [reflexivity | discriminate]]).
Qed.

Lemma publishes_bind_l {A B : Type} (m : M A) (k : A -> M B) (E : event -> Prop) :
  quiet m -> (forall a, publishes (k a) E) -> publishes (bind m k) E.
Proof.
  intros Hm Hk w. unfold bind. destruct (Hm w) as (es1 & Ht1 & Hp1).
  destruct (m w) as [[a|e| |] w1]; cbn [fst snd] in *;
    try (exists es1; split; [assumption | left; split; [assumption | discriminate]]).
  destruct (Hk a w1) as (es2 & Ht2 & Hp2). exists (es1 ++ es2).
  rewrite Ht2, Ht1, app_assoc, pubs_app, Hp1. split; [reflexivity | exact Hp2].
Qed.

Lemma publishes_bind_r {A B : Type} (m : M A) (k : A -> M B) (E : event -> Prop) :
  publishes m E -> (forall a, quiet (k a)) -> publishes (bind m k) E.
Proof.
  intros Hm Hk w. unfold bind. destruct (Hm w) as (es1 & Ht1 & Hp1).
  destruct (m w) as [[a|e| |] w1]; cbn [fst snd] in *;
    try (exists es1; split; [assumption|];
         destruct Hp1 as [[Hp1 _] | Hp1];
         [left; split; [assumption | discriminate] | right; assumption]).
  destruct (Hk a w1) as (es2 & Ht2 & Hp2). exists (es1 ++ es2).
  rewrite Ht2, Ht1, app_assoc, pubs_app, Hp2, app_nil_r. split; [reflexivity|].
  destruct Hp1 as [[_ Hp1] | Hp1]; [exfalso; exact (Hp1 a eq_refl) | right; exact Hp1].
Qed.

Lemma publishes_logged {A : Type} (m : M A) (e : event) (E : event -> Prop) :
  is_pub e = true -> E e ->
  (forall w, trace (snd (m w)) = trace w ++ [e]) -> publishes m E.
Proof.
  intros He HE Hm w. exists [e]. split; [apply Hm|]. right. exists e.
  split; [exact HE|]. unfold pubs. cbn [List.filter]. rewrite He. reflexivity.
Qed.

Lemma publishes_gh_call (e : event) (E : event -> Prop) :
  is_pub e = true -> E e -> publishes (gh_call e) E.
Proof. intros He HE. apply (publishes_logged _ e E He HE). apply gh_call_logs. Qed.

Lemma publishes_print (items : list value) (E : event -> Prop) :
  is_pub (Print items) = true -> E (Print items) -> publishes (print items) E.
Proof. intros He HE. apply (publishes_logged _ (Print items) E He HE). reflexivity. Qed.

Ltac quiet_step :=
  first [ apply quiet_ret | apply quiet_lift | apply quiet_bb_open
        | apply quiet_gh_call; reflexivity | apply quiet_print; reflexivity
        | apply quiet_bind; [|intros ?] ].

Lemma quiet_get_comments (bb_url : text) (issue : value) :
  quiet (get_comments bb_url issue).
Proof. unfold get_comments. repeat quiet_step. Qed.

(** The call that creates the issue is the one publication of [push_issue]. *)
Lemma push_issue_publishes (user repo : text) (issue : dict) (body : text)
    (comments : list comment) :
  publishes (push_issue user repo issue body comments)
    (fun e => exists t, encode_utf8 (get issue (u "title")) = Ok t /\
                        e = GhIssueCreate t body user repo).
Proof.
  unfold push_issue. apply publishes_lift_bind. intros t Ht.
  apply publishes_bind_r; [apply publishes_gh_call; [reflexivity | eauto]|].
  intros number. apply quiet_bind.
  { repeat match goal with |- quiet (if ?c then _ else _) => destruct c end;
      repeat quiet_step. }
  intros _. repeat (apply quiet_bind; [apply quiet_lift | intros ?]).
  apply quiet_bind; [apply quiet_gh_call; reflexivity | intros _].
  apply quiet_bind.
  { apply quiet_for_each. intros c. repeat quiet_step. }
  intros _. repeat quiet_step.
Qed.

Lemma title_line (t : text) :
  format_str (u "Title: {}") [VStr t] = Ok (u "Title: " ++ t).
Proof.
  unfold format_str. py_step. rewrite <- (app_nil_r t) at 2. vm_compute. reflexivity.
Qed.

Lemma body_line (b : text) :
  format_str (u "Body: {}") [VStr b] = Ok (u "Body: " ++ b).
Proof.
  unfold format_str. py_step. rewrite <- (app_nil_r b) at 2. vm_compute. reflexivity.
Qed.

Lemma count_line (n : Z) :
  format_str (u "Created {} issues") [VInt n] = Ok (u "Created " ++ decimal n ++ u " issues").
Proof.
  unfold format_str. py_step. generalize (decimal n). intros digits.
  vm_compute. reflexivity.
Qed.

(** The event [e] publishes the issue [issue]. *)
Definition publication_of (opts : options) (user repo : text) (issue : value)
    (e : event) : Prop :=
  exists (d : dict) (t : text),
    issue = VDict d /\ encode_utf8 (get d (u "title")) = Ok t /\
    if dry_run opts then e = Print [VStr (u "Title: " ++ t)]
    else exists b, format_body opts d = Ok b /\ e = GhIssueCreate t (utf8 b) user repo.

Lemma migrate_issue_publishes (opts : options) (bb_url user repo : text)
    (n_issues : nat) (issue : value) :
  publishes (migrate_issue opts bb_url user repo n_issues issue)
    (publication_of opts user repo issue).
Proof.
  unfold migrate_issue. apply publishes_bind_l; [apply quiet_get_comments|].
  intros comments. unfold publication_of.
  destruct issue as [| | | | | |d];
    try (intros w; exists []; cbn; rewrite app_nil_r;
         split; [reflexivity | left; split; [reflexivity | discriminate]]).
  destruct (dry_run opts).
  - apply publishes_lift_bind. intros t Ht.
    apply publishes_lift_bind. intros line Hline.
    rewrite title_line in Hline. injection Hline as <-.
    apply publishes_bind_r.
    + apply publishes_print; [vm_compute; reflexivity|]. exists d, t. auto.
    + intros _. apply quiet_lift_bind. intros b _.
      apply quiet_lift_bind. intros line Hline.
      rewrite body_line in Hline. injection Hline as <-.
      apply quiet_bind; [apply quiet_print; vm_compute; reflexivity | intros _].
      apply quiet_print. reflexivity.
  - apply publishes_lift_bind. intros b Hb.
    apply publishes_bind_r.
    + pose proof (push_issue_publishes user repo d (utf8 b) comments) as Hpush.
      intros w. destruct (Hpush w) as (es & Htrace & Hpubs). exists es.
      split; [exact Htrace|]. destruct Hpubs as [Hnone | (e & (t & Ht & ->) & He)];
        [left; exact Hnone | right].
      eexists. split; [|exact He]. exists d, t. eauto.
    + intros _. apply quiet_lift_bind. intros line Hline.
      rewrite count_line in Hline. injection Hline as <-.
      apply quiet_print. vm_compute. reflexivity.
Qed.

(** A loop whose body publishes one item per turn publishes the items in
    the order of the list, up to the turn where it fails. *)
Lemma for_each_publishes {A : Type} (f : A -> M unit) (E : A -> event -> Prop)
    (l : list A) :
  (forall x, publishes (f x) (E x)) ->
  forall w, exists es done,
    trace (snd (for_each f l w)) = trace w ++ es /\
    done `prefix_of` l /\
    Forall2 E done (pubs es) /\
    (fst (for_each f l w) = Ok tt -> done = l).
Proof.
  intros Hf. induction l as [|x l IH]; intros w.
  - exists [], []. cbn. rewrite app_nil_r.
    split; [reflexivity|]. split; [apply prefix_nil|]. split; [constructor | reflexivity].
  - cbn [for_each]. unfold bind. destruct (Hf x w) as (es1 & Ht1 & Hp1).
    destruct (f x w) as [[[]|e| |] w1] eqn:Hrun; cbn [fst snd] in *;
      [ destruct Hp1 as [[_ Hp1] | (e & He & Hp1)]; [exfalso; exact (Hp1 tt eq_refl)|]
      | | | ].
    + destruct (IH w1) as (es2 & done & Ht2 & Hpre & Hrel & Hall).
      exists (es1 ++ es2), (x :: done). rewrite Ht2, Ht1, app_assoc, pubs_app, Hp1.
      split; [reflexivity|]. split; [apply prefix_cons, Hpre|].
      split; [constructor; assumption|]. intros Hok. rewrite (Hall Hok). reflexivity.
    + destruct Hp1 as [[Hp1 _] | (e' & He & Hp1)];
        [exists es1, [] | exists es1, [x]]; rewrite Hp1;
        (split; [exact Ht1|]); (split; [|split; [|discriminate]]);
        first [apply prefix_nil | apply prefix_cons, prefix_nil | idtac];
        repeat constructor; exact He.
    + destruct Hp1 as [[Hp1 _] | (e' & He & Hp1)];
        [exists es1, [] | exists es1, [x]]; rewrite Hp1;
        (split; [exact Ht1|]); (split; [|split; [|discriminate]]);
        first [apply prefix_nil | apply prefix_cons, prefix_nil | idtac];
        repeat constructor; exact He.
    + destruct Hp1 as [[Hp1 _] | (e' & He & Hp1)];
        [exists es1, [] | exists es1, [x]]; rewrite Hp1;
        (split; [exact Ht1|]); (split; [|split; [|discriminate]]);
        first [apply prefix_nil | apply prefix_cons, prefix_nil | idtac];
        repeat constructor; exact He.
Qed.

Lemma keyed_inv (keyf : value -> res value) (l : list value) :
  forall keyed,
    map_res (fun x => let! k := keyf x in Ok (k, x)) l = Ok keyed ->
    map snd keyed = l /\ Forall (fun kx => keyf (snd kx) = Ok (fst kx)) keyed.
Proof.
  induction l as [|x l IH]; intros keyed Hkeyed; cbn [map_res] in Hkeyed.
  - injection Hkeyed as <-. split; constructor.
  - destruct (keyf x) as [k| | |] eqn:Hk; try discriminate Hkeyed.
    cbn [res_bind] in Hkeyed.
    destruct (map_res _ l) as [rest| | |]; try discriminate Hkeyed.
    cbn [res_bind] in Hkeyed. injection Hkeyed as <-.
    destruct (IH rest eq_refl) as [Hsnd Hall]. cbn [map snd]. rewrite Hsnd.
    split; [reflexivity | constructor; assumption].
Qed.

(** Whenever [sorted] returns, it returns the items it was given, in the
    order of their keys. *)
Lemma sorted_inv (keyf : value -> res value) (l l' : list value) :
  sorted keyf l = Ok l' ->
  l' ≡ₚ l /\ StronglySorted (in_key_order keyf) l'.
Proof.
  unfold sorted. destruct (map_res _ l) as [keyed| | |] eqn:Hkeyed; try discriminate.
  cbn [res_bind]. destruct (forallb _ keyed); [|discriminate]. intros [= <-].
  destruct (keyed_inv keyf l keyed Hkeyed) as [Hsnd Hall]. split.
  - rewrite <- Hsnd. apply Permutation_map, stable_sort_perm.
  - apply (StronglySorted_map_where (not_above keyed_lt) _
             (fun kx => keyf (snd kx) = Ok (fst kx))).
    + intros [ka a] [kb b] Ha Hb Hab ka' kb' Ha' Hb'. cbn [fst snd] in *.
      rewrite Ha in Ha'. rewrite Hb in Hb'. injection Ha' as <-. injection Hb' as <-.
      exact Hab.
    + rewrite stable_sort_perm. exact Hall.
    + apply stable_sort_sorted.
      * intros a b. apply value_lt_asym.
      * intros a b c. apply value_not_above_trans.
Qed.

Definition local_id_of (issue : value) : res value := subscript issue (u "local_id").

(** The issue has the integer identifier [z]. *)
Definition has_id (issue : value) (z : Z) : Prop := local_id_of issue = Ok (VInt z).

Lemma ascending_ids (done : list value) :
  StronglySorted (in_key_order local_id_of) done ->
  forall ids, Forall2 has_id done ids ->
    StronglySorted Z.le ids /\ (NoDup ids -> StronglySorted Z.lt ids).
Proof.
  induction 1 as [|x done Hsorted IH Hall]; intros ids Hids.
  - inversion Hids; subst. split; [constructor | intros _; constructor].
  - inversion Hids as [|? z ? zs Hx Hrest]; subst.
    destruct (IH zs Hrest) as [Hle Hlt].
    assert (Hz : Forall (Z.le z) zs).
    { clear -Hall Hx Hrest. induction Hrest as [|y z' done zs Hy Hrest IH]; constructor.
      - inversion Hall as [|? ? Hxy _]; subst.
        specialize (Hxy _ _ Hx Hy). unfold value_lt in Hxy. cbn in Hxy.
        apply Z.ltb_ge in Hxy. exact Hxy.
      - inversion Hall; subst. apply IH. assumption. }
    split; [constructor; assumption|].
    intros Hnodup. apply NoDup_cons in Hnodup as [Hnotin Hnodup].
    constructor; [exact (Hlt Hnodup)|].
    rewrite Forall_forall in Hz |- *. intros y Hy. specialize (Hz y Hy).
    assert (z ≠ y) by (intros ->; contradiction). lia.
Qed.

(** The loop publishes a beginning of the sorted issues, in order. *)
Lemma migrate_all_publishes (opts : options) (bb_url user repo : text)
    (issues : list value) (w : world) :
  exists (es : list event) (done ordered : list value),
    trace (snd (migrate_all opts bb_url user repo issues w)) = trace w ++ es /\
    Forall2 (publication_of opts user repo) done (pubs es) /\
    done `prefix_of` ordered /\ ordered ≡ₚ issues /\
    (fst (migrate_all opts bb_url user repo issues w) = Ok tt -> done = ordered) /\
    StronglySorted (in_key_order local_id_of) done.
Proof.
  unfold migrate_all, bind, lift. fold local_id_of.
  destruct (sorted local_id_of issues) as [ordered| | |] eqn:Hsorted;
    [| exists [], [], issues; cbn [fst snd pubs List.filter]; rewrite app_nil_r;
       (split; [reflexivity|]); (split; [constructor|]); (split; [apply prefix_nil|]);
       (split; [reflexivity|]); (split; [discriminate | constructor]) ..].
  destruct (sorted_inv _ _ _ Hsorted) as [Hperm Hord].
  destruct (for_each_publishes _ (publication_of opts user repo) ordered
              (migrate_issue_publishes opts bb_url user repo (length issues)) w)
    as (es & done & Htrace & Hpre & Hrel & Hall).
  exists es, done, ordered.
  split; [exact Htrace|]. split; [exact Hrel|]. split; [exact Hpre|].
  split; [exact Hperm|]. split; [exact Hall|].
  destruct Hpre as [k ->]. eapply StronglySorted_app_1_l. exact Hord.
Qed.

(** ** The loop ends well against a source and a target that answer *)

(** The comment can be formatted once it is kept. *)
Definition formattable (c : value) : Prop :=
  forall o, from_source c o -> exists message, format_comment o = Ok message.

(** The comments of one issue, as the source delivers them. *)
Definition deliverable (payload : list value) : Prop :=
  Forall (fun c => well_formed_comment c /\ formattable c) payload.

(** The issue has what the publisher reads: a title, metadata, and the
    fields of its body. *)
Definition publishable (opts : options) (issue : value) : Prop :=
  exists (d : dict) (t : text) (metadata : dict) (body : text),
    issue = VDict d /\
    d !! u "title" = Some (VUni t) /\
    d !! u "metadata" = Some (VDict metadata) /\
    format_body opts d = Ok body.

Lemma filter_bool_length {A : Type} (p : A -> bool) (l : list A) :
  (length (List.filter p l) <= length l)%nat.
Proof.
  induction l as [|x l IH]; [reflexivity|]. cbn [List.filter].
  destruct (p x); cbn [length]; lia.
Qed.

Lemma Forall_filter_bool {A : Type} (P : A -> Prop) (p : A -> bool) (l : list A) :
  Forall P l -> Forall P (List.filter p l).
Proof.
  induction 1 as [|x l Hx _ IH]; cbn [List.filter]; [constructor|].
  destruct (p x); [constructor; assumption | exact IH].
Qed.

Lemma get_comments_run (bb_url : text) (issue : value) (w : world)
    (v_id : value) (id : text) (payload : list value) (more : list (res value)) :
  subscript issue (u "local_id") = Ok v_id ->
  to_str v_id = Ok id ->
  bb_answers w = Ok (VList payload) :: more ->
  deliverable payload ->
  exists out messages,
    get_comments bb_url issue w
    = (Ok out, {| bb_answers := more; gh_answers := gh_answers w;
                  trace := trace w ++ [BbOpen (bb_url ++ u "/" ++ id ++ u "/comments/")] |}) /\
    map_res format_comment out = Ok messages /\
    (length out <= length payload)%nat.
Proof.
  intros Hid Hid' Hans Hdel.
  assert (Hwf : Forall well_formed_comment payload)
    by (eapply Forall_impl; [exact Hdel | intros c [H _]; exact H]).
  assert (Hfmt : Forall formattable payload)
    by (eapply Forall_impl; [exact Hdel | intros c [_ H]; exact H]).
  destruct (comment_keys payload Hwf) as (keys & Hkeys & Hscalar).
  destruct (sorted_ordered _ payload keys Hkeys Hscalar) as (ordered & Hsorted & Hperm & _).
  assert (Hwf' : Forall well_formed_comment ordered) by (rewrite Hperm; exact Hwf).
  assert (Hfmt' : Forall formattable ordered) by (rewrite Hperm; exact Hfmt).
  destruct (keep_comments_spec ordered Hwf') as (out & Hout & Hrel).
  assert (Hmsg : exists messages, map_res format_comment out = Ok messages).
  { pose proof (Forall_filter_bool formattable has_text ordered Hfmt') as Hkept.
    clear -Hrel Hkept. induction Hrel as [|c o kept out Hco _ IH].
    - exists []. reflexivity.
    - inversion Hkept as [|? ? Hc Hkept']; subst.
      destruct (Hc o Hco) as (message & Hmessage).
      destruct (IH Hkept') as (messages & Hmessages).
      exists (message :: messages). cbn [map_res]. rewrite Hmessage, Hmessages. reflexivity. }
  destruct Hmsg as (messages & Hmessages). exists out, messages.
  split; [|split; [exact Hmessages|]].
  - unfold get_comments.
    rewrite (bind_lift_ok _ _ w v_id Hid).
    rewrite (bind_lift_ok _ _ w _ (comments_url bb_url v_id id Hid')).
    erewrite bind_ok; [|unfold bb_open; rewrite Hans; reflexivity].
    rewrite (bind_lift_ok _ _ _ payload eq_refl).
    rewrite (bind_lift_ok _ _ _ ordered Hsorted).
    unfold lift. rewrite Hout. reflexivity.
  - apply Forall2_length in Hrel. rewrite <- Hrel.
    etransitivity; [apply filter_bool_length|]. rewrite (Permutation_length Hperm).
    reflexivity.
Qed.

(** [push_issue] against a target that answers: it ends well and has taken
    at most three answers and one per comment. *)
Lemma push_issue_run (user repo : text) (issue : dict) (body : text)
    (comments : list comment) (w : world) (t : text) (metadata : dict)
    (messages : list text) (number v1 v2 : value) (rest : list value) :
  issue !! u "title" = Some (VUni t) ->
  issue !! u "metadata" = Some (VDict metadata) ->
  map_res format_comment comments = Ok messages ->
  gh_answers w = map Ok (number :: v1 :: v2 :: rest) ->
  (length comments <= length rest)%nat ->
  exists w' k,
    push_issue user repo issue body comments w = (Ok tt, w') /\
    bb_answers w' = bb_answers w /\
    gh_answers w' = map Ok (drop k (number :: v1 :: v2 :: rest)) /\
    (k <= 3 + length comments)%nat.
Proof.
  intros Ht Hm Hfmt Hans Hlen. unfold push_issue.
  assert (Htitle : get issue (u "title") = VUni t) by (unfold get; rewrite Ht; reflexivity).
  rewrite Htitle. rewrite (bind_lift_ok _ _ w (utf8 t) eq_refl).
  rewrite (bind_ok _ _ w _ number (gh_call_answered _ w number _ Hans)).
  set (w1 := answered w (number :: v1 :: v2 :: rest) 1 [GhIssueCreate (utf8 t) body user repo]).
  assert (Hans1 : gh_answers w1 = map Ok (v1 :: v2 :: rest)) by reflexivity.
  destruct (eq_literal (get issue (u "status")) (u "resolved")) eqn:Hres.
  - rewrite (bind_ok _ _ w1
               (answered w1 (v1 :: v2 :: rest) 1 [GhIssueUpdate number (u "closed") user repo]) tt);
      [| rewrite (bind_ok _ _ w1 _ v1 (gh_call_answered _ w1 v1 _ Hans1)); reflexivity].
    set (w2 := answered w1 _ 1 _).
    assert (Hans2 : gh_answers w2 = map Ok (v2 :: rest)) by reflexivity.
    cbn [subscript]. rewrite Hm.
    repeat (rewrite (bind_lift_ok _ _ _ _ eq_refl); cbn [get_attr]).
    rewrite (bind_ok _ _ w2 _ v2 (gh_call_answered _ w2 v2 _ Hans2)).
    set (w3 := answered w2 _ 1 _).
    rewrite (bind_ok _ _ w3 _ tt
               (for_each_comments number user repo comments messages w3 rest Hfmt eq_refl Hlen)).
    rewrite Ht. rewrite (bind_lift_ok _ _ _ _ eq_refl).
    rewrite (bind_lift_ok _ _ _ _ (created_line t _)).
    eexists. exists (3 + length comments)%nat. split; [reflexivity|].
    split; [reflexivity|]. split; [reflexivity | lia].
  - repeat match goal with
           | |- context [if ?c then @ret unit tt else @ret unit tt] =>
               replace (if c then @ret unit tt else @ret unit tt) with (@ret unit tt)
                 by (destruct c; reflexivity)
           end.
    rewrite (bind_ok _ _ w1 w1 tt eq_refl).
    cbn [subscript]. rewrite Hm.
    repeat (rewrite (bind_lift_ok _ _ _ _ eq_refl); cbn [get_attr]).
    rewrite (bind_ok _ _ w1 _ v1 (gh_call_answered _ w1 v1 _ Hans1)).
    set (w3 := answered w1 _ 1 _).
    rewrite (bind_ok _ _ w3 _ tt
               (for_each_comments number user repo comments messages w3 (v2 :: rest) Hfmt
                  eq_refl (Nat.le_trans _ _ _ Hlen (Nat.le_succ_diag_r _)))).
    rewrite Ht. rewrite (bind_lift_ok _ _ _ _ eq_refl).
    rewrite (bind_lift_ok _ _ _ _ (created_line t _)).
    eexists. exists (2 + length comments)%nat. split; [reflexivity|].
    split; [reflexivity|]. split; [reflexivity | lia].
Qed.

Lemma bind_print {B : Type} (items : list value) (k : unit -> M B) (w : world) :
  bind (print items) k w = k tt (log (Print items) w).
Proof. reflexivity. Qed.

(** One turn of the loop, for an issue that can be published and comments
    that can be delivered. *)
Lemma migrate_issue_run (opts : options) (bb_url user repo : text) (n_issues : nat)
    (issue : value) (z : Z) (w : world) (payload : list value)
    (more : list (res value)) (vs : list value) :
  publishable opts issue -> has_id issue z ->
  bb_answers w = Ok (VList payload) :: more ->
  deliverable payload ->
  gh_answers w = map Ok vs ->
  (3 + length payload <= length vs)%nat ->
  exists w' k,
    migrate_issue opts bb_url user repo n_issues issue w = (Ok tt, w') /\
    bb_answers w' = more /\
    gh_answers w' = map Ok (drop k vs) /\
    (k <= 3 + length payload)%nat.
Proof.
  intros (d & t & metadata & body & -> & Ht & Hm & Hbody) Hid Hans Hdel Hgh Hlen.
  destruct (get_comments_run bb_url (VDict d) w (VInt z) (decimal z) payload more
              Hid eq_refl Hans Hdel) as (out & messages & Hget & Hmessages & Hout).
  unfold migrate_issue. rewrite (bind_ok _ _ w _ out Hget).
  set (w1 := {| bb_answers := more |}).
  assert (Htitle : get d (u "title") = VUni t) by (unfold get; rewrite Ht; reflexivity).
  destruct (dry_run opts).
  - rewrite Htitle. rewrite (bind_lift_ok _ _ _ (utf8 t) eq_refl).
    rewrite (bind_lift_ok _ _ _ _ (title_line _)).
    rewrite bind_print.
    rewrite (bind_lift_ok _ _ _ _ Hbody).
    rewrite (bind_lift_ok _ _ _ _ (body_line _)).
    rewrite bind_print.
    eexists. exists 0%nat. split; [reflexivity|]. split; [reflexivity|].
    split; [exact Hgh | lia].
  - rewrite (bind_lift_ok _ _ _ _ Hbody).
    destruct vs as [|number [|v1 [|v2 rest]]]; try (cbn [length] in Hlen; lia).
    destruct (push_issue_run user repo d (utf8 body) out w1 t metadata messages
                number v1 v2 rest Ht Hm Hmessages Hgh)
      as (w2 & k & Hpush & Hbb & Hgh2 & Hk); [cbn [length] in Hlen; lia|].
    rewrite (bind_ok _ _ w1 w2 tt Hpush).
    rewrite (bind_lift_ok _ _ _ _ (count_line _)).
    eexists. exists k. split; [reflexivity|]. unfold print, log. cbn [snd bb_answers gh_answers].
    split; [exact Hbb|]. split; [exact Hgh2 | lia].
Qed.

(** The loop, for issues that can be published, a source that delivers the
    comments of each and a target that holds enough answers. *)
Lemma migrate_loop_run (opts : options) (bb_url user repo : text) (n_issues : nat)
    (l : list value) :
  forall (ids : list Z) (payloads : list (list value)) (w : world)
         (more : list (res value)) (vs : list value),
    Forall (publishable opts) l -> Forall2 has_id l ids ->
    length payloads = length l ->
    Forall deliverable payloads ->
    bb_answers w = map (fun p => Ok (VList p)) payloads ++ more ->
    gh_answers w = map Ok vs ->
    (3 * length l + length (concat payloads) <= length vs)%nat ->
    fst (for_each (migrate_issue opts bb_url user repo n_issues) l w) = Ok tt.
Proof.
  induction l as [|issue l IH];
    intros ids payloads w more vs Hpub Hids Hlen Hdel Hans Hgh Hsupply; [reflexivity|].
  destruct payloads as [|payload payloads]; [discriminate Hlen|].
  inversion Hpub as [|? ? Hissue Hpub']; subst.
  inversion Hids as [|? z ? ids' Hz Hids']; subst.
  inversion Hdel as [|? ? Hpayload Hdel']; subst.
  cbn [length concat] in Hsupply. rewrite length_app in Hsupply.
  destruct (migrate_issue_run opts bb_url user repo n_issues issue z w payload
              (map (fun p => Ok (VList p)) payloads ++ more) vs
              Hissue Hz Hans Hpayload Hgh)
    as (w' & k & Hrun & Hbb & Hgh' & Hk); [lia|].
  cbn [for_each]. rewrite (bind_ok _ _ w w' tt Hrun).
  apply (IH ids' payloads w' more (drop k vs) Hpub' Hids'); try assumption.
  - cbn [length] in Hlen. lia.
  - rewrite length_drop. lia.
Qed.

Lemma sorted_by_id (issues : list value) (ids : list Z) :
  Forall2 has_id issues ids ->
  exists ordered, sorted local_id_of issues = Ok ordered.
Proof.
  intros Hids.
  assert (Hkeys : map_res local_id_of issues = Ok (map VInt ids)).
  { induction Hids as [|i z issues ids Hz _ IH]; [reflexivity|].
    cbn [map_res map]. rewrite Hz, IH. reflexivity. }
  assert (Hscalar : forallb is_scalar (map VInt ids) = true).
  { clear. induction ids as [|z ids IH]; [reflexivity | exact IH]. }
  destruct (sorted_ordered _ issues _ Hkeys Hscalar) as (ordered & Hsorted & _).
  exists ordered. exact Hsorted.
Qed.

(** C9. For every collection of fetched issues, identified by pairwise
    distinct integers, and in whatever order it was fetched: the loop of the
    main program handles the issues in the strictly ascending order of
    their identifiers.  In any run, dry or not, its publication events (the
    calls that create the issues, or the lines that print their titles) are
    those of a beginning of the issues in that order, of all of them when
    the run ends well; and the run does end well against a source that
    delivers the comments of each issue and a target that answers. *)
Theorem C9_migrate_all_order (opts : options) (bb_url user repo : text)
    (issues : list value) (ids : list Z) (w : world) :
  Forall2 has_id issues ids ->
  NoDup ids ->
  exists (ordered : list value) (ordered_ids : list Z),
    ordered ≡ₚ issues /\
    Forall2 has_id ordered ordered_ids /\
    StronglySorted Z.lt ordered_ids /\
    (exists (es : list event) (done : list value),
       trace (snd (migrate_all opts bb_url user repo issues w)) = trace w ++ es /\
       done `prefix_of` ordered /\
       Forall2 (publication_of opts user repo) done (pubs es) /\
       (fst (migrate_all opts bb_url user repo issues w) = Ok tt -> done = ordered)) /\
    (forall (payloads : list (list value)) (more : list (res value)) (vs : list value),
       Forall (publishable opts) issues ->
       length payloads = length issues ->
       Forall deliverable payloads ->
       bb_answers w = map (fun p => Ok (VList p)) payloads ++ more ->
       gh_answers w = map Ok vs ->
       (3 * length issues + length (concat payloads) <= length vs)%nat ->
       fst (migrate_all opts bb_url user repo issues w) = Ok tt).
Proof.
  intros Hids Hnodup.
  destruct (sorted_by_id issues ids Hids) as (ordered & Hsorted).
  destruct (sorted_inv _ _ _ Hsorted) as [Hperm Hord].
  destruct (Permutation_Forall2 (Permutation_sym Hperm) Hids)
    as (ordered_ids & Hperm_ids & Hordered_ids).
  exists ordered, ordered_ids.
  split; [exact Hperm|]. split; [exact Hordered_ids|]. split.
  { apply (ascending_ids ordered Hord ordered_ids Hordered_ids).
    rewrite <- Hperm_ids. exact Hnodup. }
  split.
  - unfold migrate_all, bind, lift. fold local_id_of. rewrite Hsorted.
    destruct (for_each_publishes _ (publication_of opts user repo) ordered
                (migrate_issue_publishes opts bb_url user repo (length issues)) w)
      as (es & done & Htrace & Hpre & Hrel & Hall).
    exists es, done. split; [exact Htrace|]. split; [exact Hpre|].
    split; [exact Hrel | exact Hall].
  - intros payloads more vs Hpub Hlen Hdel Hans Hgh Hsupply.
    unfold migrate_all, bind, lift. fold local_id_of. rewrite Hsorted.
    apply (migrate_loop_run opts bb_url user repo (length issues) ordered ordered_ids
             payloads w more vs); try assumption.
    + rewrite Hperm. exact Hpub.
    + rewrite (Permutation_length Hperm). exact Hlen.
    + rewrite (Permutation_length Hperm). exact Hsupply.
Qed.

Definition fetched_issue (id : Z) (title : text) : value :=
  VDict (<[u "local_id" := VInt id]>
           (<[u "title" := VUni title]>
              (<[u "content" := VUni (u "It crashes.")]>
                 (<[u "created_on" := VUni (u "2012-07-13 09:27:27+00:00")]>
                    {[u "metadata" := VDict ∅]})))).

(** The source holds no comment for two issues; the target answers. *)
Definition two_issue_world : world :=
  {| bb_answers := [Ok (VList []); Ok (VList [])];
     gh_answers := map Ok [VInt 1; VNone; VInt 2; VNone];
     trace := [] |}.

Definition created_titles (es : list event) : list text :=
  flat_map (fun e => match e with GhIssueCreate t _ _ _ => [t] | _ => [] end) es.

(** Two issues fetched latest first, the first of them with one comment. *)
Definition later_first : list value :=
  [fetched_issue 9 (u "later"); fetched_issue 3 (u "earlier")].

Definition commented_world : world :=
  {| bb_answers :=
       [Ok (VList []);
        Ok (VList [source_comment 1 (u "2012-07-13 10:00:00+00:00") (VUni (u "Me too."))])];
     gh_answers := map Ok [VInt 1; VNone; VInt 2; VNone; VNone; VNone; VNone];
     trace := [] |}.

Lemma C9_migrate_all_order_witness :
  let run := migrate_all acme_options issues_url (u "octo") (u "widgets") later_first
               commented_world in
  fst run = Ok tt /\
  created_titles (trace (snd run)) = [u "earlier"; u "later"].
Proof.
  cbv zeta.
  destruct (C9_migrate_all_order acme_options issues_url (u "octo") (u "widgets")
              later_first [9; 3]%Z commented_world)
    as (ordered & ordered_ids & _ & _ & _ & _ & Hends).
  - repeat constructor.
  - repeat (apply NoDup_cons; split;
            [rewrite ?not_elem_of_cons; repeat split;
             first [apply not_elem_of_nil | discriminate] |]).
    apply NoDup_nil_2.
  - split; [|vm_compute; reflexivity].
    apply (Hends [[]; [source_comment 1 (u "2012-07-13 10:00:00+00:00") (VUni (u "Me too."))]]
                 [] [VInt 1; VNone; VInt 2; VNone; VNone; VNone; VNone]).
    + repeat constructor; eexists _, _, _, _;
        (split; [reflexivity|]); repeat split; vm_compute; reflexivity.
    + reflexivity.
    + constructor; [constructor|]. constructor; [|constructor].
      constructor; [|constructor]. split.
      * eexists _, _, _. split; [reflexivity|].
        split; [vm_compute; reflexivity|]. split; [vm_compute; reflexivity|].
        right; right. exists (u "Me too."), VNone, (VStr (u "Anonymous")).
        split; [key_ne|]. repeat split; vm_compute; reflexivity.
      * intros [user created body number] (Hcreated & Hnumber & (s & Hs & _ & Hbody) & (a & Ha & Huser)).
        cbn [c_user c_created_at c_body c_number] in *.
        vm_compute in Hs. injection Hs as <-.
        vm_compute in Ha. injection Ha as <-.
        vm_compute in Huser. injection Huser as <-.
        subst body. eexists. vm_compute. reflexivity.
    + reflexivity.
    + reflexivity.
    + unfold later_first. cbn [length concat app map]. lia.
Defined.

(** The identifiers are what orders the issues: should the fetch deliver
    the same identifier twice (an issue seen on two pages, say), both copies
    are published, next to each other and in the order of the fetch. *)
Example same_identifier_twice :
  let issues := [fetched_issue 7 (u "first"); fetched_issue 7 (u "second")] in
  let run := migrate_all acme_options issues_url (u "octo") (u "widgets") issues
               two_issue_world in
  fst run = Ok tt /\
  created_titles (trace (snd run)) = [u "first"; u "second"].
Proof. cbv zeta. split; vm_compute; reflexivity. Qed.

(** Two issues delivered latest first are published earliest first. *)
Example migrate_all_reorders :
  let issues := [fetched_issue 9 (u "later"); fetched_issue 3 (u "earlier")] in
  let run := migrate_all acme_options issues_url (u "octo") (u "widgets") issues
               two_issue_world in
  fst run = Ok tt /\
  created_titles (trace (snd run)) = [u "earlier"; u "later"].
Proof. cbv zeta. split; vm_compute; reflexivity. Qed.

(** The same holds for the main program: what it does before the loop
    publishes nothing. *)
Lemma quiet_get_issues_loop (turns : nat) :
  forall (bb_url : text) (acc : list value) (start_id : Z),
    quiet (get_issues_loop turns bb_url acc start_id).
Proof.
  induction turns as [|turns IH]; intros bb_url acc start_id; cbn [get_issues_loop];
    [apply quiet_lift|].
  apply quiet_bind.
  - unfold get_issues_turn. apply quiet_bind; [apply quiet_lift | intros url].
    apply quiet_bind; [apply quiet_bb_open_hinted | intros result].
    apply quiet_bind; [apply quiet_lift | intros page].
    destruct (negb (truthy page)); repeat quiet_step.
  - intros [done | acc' start']; [apply quiet_ret | apply IH].
Qed.

Lemma quiet_get_issues (bb_url : text) (start_id : Z) : quiet (get_issues bb_url start_id).
Proof. intros w. unfold get_issues. apply quiet_get_issues_loop. Qed.

Lemma quiet_setup_labels (user repo : text) (milestones components : list value) :
  quiet (setup_labels user repo milestones components).
Proof.
  unfold setup_labels. apply quiet_for_each. intros [label color]. repeat quiet_step.
Qed.

Lemma main_order (opts : options) (w : world) :
  exists (es : list event) (user repo : text) (done : list value),
    trace (snd (main opts w)) = trace w ++ es /\
    Forall2 (publication_of opts user repo) done (pubs es) /\
    StronglySorted (in_key_order local_id_of) done.
Proof.
  assert (Hquiet : forall (A : Type) (m : M A) (k : A -> M unit),
    quiet m ->
    (forall a w, exists es user repo done,
        trace (snd (k a w)) = trace w ++ es /\
        Forall2 (publication_of opts user repo) done (pubs es) /\
        StronglySorted (in_key_order local_id_of) done) ->
    forall w, exists es user repo done,
        trace (snd (bind m k w)) = trace w ++ es /\
        Forall2 (publication_of opts user repo) done (pubs es) /\
        StronglySorted (in_key_order local_id_of) done).
  { intros A m k Hm Hk w0. unfold bind. destruct (Hm w0) as (es1 & Ht1 & Hp1).
    destruct (m w0) as [[a|e| |] w1]; cbn [snd] in *;
      try (exists es1, [], [], []; rewrite Hp1;
           split; [exact Ht1 | split; constructor]).
    destruct (Hk a w1) as (es2 & user & repo & done & Ht2 & Hrel & Hsorted).
    exists (es1 ++ es2), user, repo, done.
    rewrite Ht2, Ht1, app_assoc, pubs_app, Hp1. split; [reflexivity|].
    split; assumption. }
  unfold main. apply Hquiet; [apply quiet_lift | intros bb_url].
  apply Hquiet; [unfold get_milestones; repeat quiet_step | intros milestones].
  apply Hquiet; [unfold get_components; repeat quiet_step | intros components].
  apply Hquiet; [apply quiet_get_issues | intros issues w0].
  destruct (split_slash (github_repo opts)) as [|user [|repo [|x rest]]];
    try (exists [], [], [], []; cbn; rewrite app_nil_r;
         split; [reflexivity | split; constructor]).
  apply Hquiet; [apply quiet_setup_labels | intros _ w1].
  destruct (migrate_all_publishes opts bb_url user repo issues w1)
    as (es & done & ordered & Htrace & Hrel & _ & _ & _ & Hsorted).
  exists es, user, repo, done. split; [exact Htrace|]. split; assumption.
Qed.

End Publication.

(** * Further properties of the markup translator *)

Section Markers.

Lemma startswith_contains (p s : text) : startswith p s = true -> contains p s = true.
Proof. intros H. unfold contains. destruct s; cbn [find_split]; rewrite H; reflexivity. Qed.

Lemma startswith_partition (p s : text) :
  startswith p s = true -> partition p s = ([], p, drop (length p) s).
Proof. intros H. unfold partition. destruct s; cbn [find_split]; rewrite H; reflexivity. Qed.

Lemma contains_cons (p : text) (c : N) (s : text) :
  contains p (c :: s) = false -> startswith p (c :: s) = false /\ contains p s = false.
Proof.
  unfold contains. cbn [find_split]. destruct (startswith p (c :: s)); [discriminate|].
  destruct (find_split p s) as [[b a]|]; [discriminate|]. split; reflexivity.
Qed.

(** Replacing a text that does not occur changes nothing. *)
Lemma replace_absent (old new s : text) :
  contains old s = false -> replace old new s = s.
Proof.
  unfold replace. induction s as [|c s IH]; intros H; [reflexivity|].
  apply contains_cons in H as [Hstart Hrest]. cbn [replace_from].
  rewrite Hstart, (IH Hrest). reflexivity.
Qed.

Definition plain (line : text) : Prop :=
  contains block_open line = false /\ contains block_close line = false.

Lemma not_contains_not_start (p s : text) :
  contains p s = false -> startswith p s = false.
Proof.
  intros H. destruct (startswith p s) eqn:E; [|reflexivity].
  rewrite (startswith_contains _ _ E) in H. discriminate.
Qed.

Lemma clean_line_plain (lines : list text) (line : text) :
  plain line -> clean_line (lines, false) line = (lines ++ [line], false).
Proof.
  intros [Ho Hc]. unfold clean_line.
  rewrite (not_contains_not_start _ _ Ho), (not_contains_not_start _ _ Hc).
  cbn [orb]. rewrite (replace_absent _ _ _ Ho), (replace_absent _ _ _ Hc). reflexivity.
Qed.

Lemma fold_clean_line_plain (ls : list text) :
  forall acc, Forall plain ls ->
    fold_left clean_line ls (acc, false) = (acc ++ ls, false).
Proof.
  induction ls as [|line ls IH]; intros acc Hall; cbn [fold_left].
  - rewrite app_nil_r. reflexivity.
  - inversion Hall as [|? ? Hline Hrest]; subst.
    rewrite (clean_line_plain acc line Hline), (IH _ Hrest), <- app_assoc. reflexivity.
Qed.

(** X1. A body none of whose lines holds a marker comes out line by line as
    it went in: the lines are joined again by a line feed, so any other line
    boundary becomes a line feed and a line boundary at the very end is
    lost. *)
Theorem clean_body_plain (body : value) (s : text) :
  to_unicode body = Ok s ->
  Forall plain (splitlines s) ->
  clean_body body = Ok (join nl (splitlines s)).
Proof.
  intros Hs Hplain. unfold clean_body, clean_lines. rewrite Hs. cbn [res_bind].
  rewrite (fold_clean_line_plain _ [] Hplain). reflexivity.
Qed.

Lemma clean_body_plain_witness :
  clean_body (VUni (u "one" ++ [13; 10]%N ++ u "two" ++ nl))
  = Ok (u "one" ++ nl ++ u "two").
Proof.
  refine (eq_trans (clean_body_plain _ (u "one" ++ [13; 10]%N ++ u "two" ++ nl) _ _) _).
  - reflexivity.
  - repeat constructor.
  - vm_compute. reflexivity.
Defined.

(** A line that yields two lines: it starts with a marker and holds both. *)
Definition both_markers (line : text) : bool :=
  (startswith block_open line || startswith block_close line)
    && contains block_open line && contains block_close line.

Lemma clean_line_length (acc : list text) (b : bool) (line : text) :
  length (fst (clean_line (acc, b) line))
  = (length acc + 1 + (if both_markers line then 1 else 0))%nat.
Proof.
  unfold clean_line, both_markers.
  destruct (startswith block_open line) eqn:Ho; cbn [orb andb].
  - rewrite (startswith_contains _ _ Ho).
    destruct (partition block_open line) as [[b1 p1] a1].
    destruct (partition block_close line) as [[b2 p2] a2].
    destruct (contains block_close line); cbn [fst andb]; rewrite ?length_app; cbn [length]; lia.
  - destruct (startswith block_close line) eqn:Hc; cbn [andb].
    + rewrite (startswith_contains _ _ Hc).
      destruct (partition block_open line) as [[b1 p1] a1].
      destruct (partition block_close line) as [[b2 p2] a2].
      destruct (contains block_open line); cbn [fst andb]; rewrite ?length_app; cbn [length]; lia.
    + destruct b; cbn [fst]; rewrite length_app; cbn [length]; lia.
Qed.

(** X2. The translator never drops a line: every line of the input gives
    one line of the output, and a line that starts with a marker and holds
    both markers gives two. *)
Theorem clean_lines_length (ls : list text) :
  length (fst (clean_lines ls))
  = (length ls + length (List.filter both_markers ls))%nat.
Proof.
  unfold clean_lines.
  assert (H : forall st, length (fst (fold_left clean_line ls st))
                         = (length (fst st) + length ls
                            + length (List.filter both_markers ls))%nat).
  { induction ls as [|line ls IH]; intros [acc b]; cbn [fold_left List.filter length fst].
    - lia.
    - rewrite IH. destruct (clean_line (acc, b) line) as [acc' b'] eqn:E.
      pose proof (clean_line_length acc b line) as Hlen. rewrite E in Hlen.
      cbn [fst] in *. rewrite Hlen.
      destruct (both_markers line); cbn [length]; lia. }
  rewrite H. cbn [fst length]. lia.
Qed.

Definition unmarked (line : text) : Prop :=
  startswith block_open line = false /\ startswith block_close line = false.

Lemma fold_clean_line_in_block (ls : list text) :
  forall acc, Forall unmarked ls ->
    fold_left clean_line ls (acc, true) = (acc ++ map (app indent_unit) ls, true).
Proof.
  induction ls as [|line ls IH]; intros acc Hall; cbn [fold_left map].
  - rewrite app_nil_r. reflexivity.
  - inversion Hall as [|? ? [Ho Hc] Hrest]; subst.
    unfold clean_line at 2. rewrite Ho, Hc. cbn [orb].
    rewrite (IH _ Hrest), <- app_assoc. reflexivity.
Qed.

(** X3. A block that is opened and never closed runs to the end of the
    body without an error: after a line that starts with the open marker and
    holds no close marker, every line that does not itself start with a
    marker is indented whole and kept as it is, inline markers included; in
    particular a close marker further in on a line does not close the
    block. *)
Theorem clean_lines_unterminated (first : text) (ls : list text) :
  startswith block_open first = true ->
  contains block_close first = false ->
  Forall unmarked ls ->
  clean_lines (first :: ls)
  = ((indent_unit ++ drop 3 first) :: map (app indent_unit) ls, true).
Proof.
  intros Ho Hc Hls. unfold clean_lines. cbn [fold_left].
  unfold clean_line at 2. rewrite Ho. cbn [orb].
  rewrite (startswith_contains _ _ Ho), (startswith_partition _ _ Ho), Hc.
  rewrite (fold_clean_line_in_block ls _ Hls). reflexivity.
Qed.

Lemma clean_lines_unterminated_witness :
  clean_lines [u "{{{"; u "x = {{{1}}}"; u "done }}}"]
  = ([u "    "; u "    x = {{{1}}}"; u "    done }}}"], true).
Proof.
  refine (eq_trans (clean_lines_unterminated (u "{{{") [u "x = {{{1}}}"; u "done }}}"] _ _ _) _).
  - reflexivity.
  - reflexivity.
  - repeat constructor.
  - reflexivity.
Defined.

End Markers.

(** * Further properties of the formatters *)

Section Formatters.

Lemma utf8_ascii (s : text) : is_ascii s = true -> utf8 s = s.
Proof.
  unfold utf8. induction s as [|c s IH]; intros H; [reflexivity|].
  cbn [is_ascii forallb] in H. apply andb_true_iff in H as [Hc Hs].
  cbn [map concat]. unfold utf8_char at 1. rewrite Hc, (IH Hs). reflexivity.
Qed.

Lemma is_ascii_app (a b : text) : is_ascii (a ++ b) = is_ascii a && is_ascii b.
Proof. unfold is_ascii. apply forallb_app. Qed.

Lemma utf8_char_not_ascii (c : N) : (c <? 128)%N = false -> is_ascii (utf8_char c) = false.
Proof.
  intros Hc. unfold utf8_char. rewrite Hc.
  repeat destruct (_ <? _)%N; cbn [is_ascii forallb];
    match goal with |- (?x <? 128)%N && _ = false =>
      replace (x <? 128)%N with false; [reflexivity | symmetry; apply N.ltb_ge]
    end;
    match goal with |- (128 <= ?k + _)%N =>
      apply (N.le_trans _ k); [lia | apply N.le_add_r]
    end.
Qed.

(** The encoding has a byte above 127 exactly when the text has a character
    above 127. *)
Lemma is_ascii_utf8 (s : text) : is_ascii (utf8 s) = is_ascii s.
Proof.
  unfold utf8. induction s as [|c s IH]; [reflexivity|].
  cbn [map concat]. rewrite is_ascii_app, IH. cbn [is_ascii forallb].
  destruct (c <? 128)%N eqn:Hc.
  - unfold utf8_char. rewrite Hc. cbn [is_ascii forallb]. rewrite Hc. reflexivity.
  - rewrite (utf8_char_not_ascii c Hc). reflexivity.
Qed.

(** X4. An author whose first name is empty and who has no handle has no
    rendering: [format_user] returns None without raising, and never reads
    the last name. *)
Theorem format_user_nameless (d : dict) (first : value) :
  d !! u "first_name" = Some first -> truthy first = false ->
  d !! u "username" = None ->
  format_user (VDict d) = Ok VNone.
Proof.
  intros Hf Hfirst Hu. unfold format_user.
  rewrite truthy_dict_nonempty by (intros ->; rewrite lookup_empty in Hf; discriminate).
  py_step. rewrite Hf. py_step. rewrite Hfirst. py_step.
  rewrite (has_key_false _ _ Hu). reflexivity.
Qed.

Lemma format_user_nameless_witness :
  format_user (VDict {[u "first_name" := VUni []]}) = Ok VNone.
Proof.
  apply (format_user_nameless {[u "first_name" := VUni []]} (VUni [])).
  - vm_compute. reflexivity.
  - reflexivity.
  - vm_compute. reflexivity.
Defined.

(** X5. Such an author is written into the body of the issue as the word
    None. *)
Theorem format_body_nameless_reporter (opts : options) (issue d : dict)
    (content id created : text) (first v_id v_created : value) :
  clean_body (get issue (u "content")) = Ok content ->
  issue !! u "local_id" = Some v_id -> to_unicode v_id = Ok id ->
  issue !! u "created_on" = Some v_created -> to_unicode v_created = Ok created ->
  is_ascii (bitbucket_repo opts) = true ->
  issue !! u "reported_by" = Some (VDict d) ->
  d !! u "first_name" = Some first -> truthy first = false ->
  d !! u "username" = None ->
  format_body opts issue
  = Ok (content ++ nl ++ nl ++
        separator ++ nl ++
        u "- Bitbucket: https://bitbucket.org/" ++ flag_text (bitbucket_username opts)
          ++ u "/" ++ bitbucket_repo opts ++ u "/issue/" ++ id ++ nl ++
        u "- Originally reported by: None" ++ nl ++
        u "- Originally created at: " ++ created ++ nl).
Proof.
  intros Hc Hid Hid' Hcr Hcr' Hrepo Hby Hf Hfirst Hu.
  apply (format_body_fields opts issue content id (u "None") created v_id VNone v_created);
    try assumption; [|reflexivity].
  unfold format_name. rewrite (has_key_true _ _ _ Hby). py_step. rewrite Hby.
  py_step. unfold format_user.
  rewrite truthy_dict_nonempty by (intros ->; rewrite lookup_empty in Hf; discriminate).
  py_step. rewrite Hf. py_step. rewrite Hfirst. py_step.
  rewrite (has_key_false _ _ Hu). reflexivity.
Qed.

Definition nameless_issue : dict :=
  <[u "reported_by" := VDict {[u "first_name" := VUni []]}]> issue_seven.

Lemma format_body_nameless_reporter_witness :
  format_body acme_options nameless_issue
  = Ok (u "It crashes." ++ nl ++ nl ++
        separator ++ nl ++
        u "- Bitbucket: https://bitbucket.org/False/widgets/issue/7" ++ nl ++
        u "- Originally reported by: None" ++ nl ++
        u "- Originally created at: 2012-07-13 09:27:27+00:00" ++ nl).
Proof.
  refine (eq_trans (format_body_nameless_reporter acme_options nameless_issue
            {[u "first_name" := VUni []]} (u "It crashes.") (u "7")
            (u "2012-07-13 09:27:27+00:00") (VUni []) (VInt 7)
            (VUni (u "2012-07-13 09:27:27+00:00")) _ _ _ _ _ _ _ _ _ _) _);
    vm_compute; reflexivity.
Defined.

(** X6. A handle with a character outside ASCII cannot be rendered: the
    link is built by a byte-string template, and [format_user] raises
    UnicodeEncodeError. *)
Theorem format_user_handle_not_ascii (d : dict) (first : value) (name : text) :
  d !! u "first_name" = Some first -> truthy first = false ->
  d !! u "username" = Some (VUni name) ->
  is_ascii name = false ->
  format_user (VDict d) = Raise UnicodeEncodeError.
Proof.
  intros Hf Hfirst Hu Hname. unfold format_user.
  rewrite truthy_dict_nonempty by (intros ->; rewrite lookup_empty in Hf; discriminate).
  py_step. rewrite Hf. py_step. rewrite Hfirst. py_step.
  rewrite (has_key_true _ _ _ Hu), Hu. unfold format_str. py_step.
  rewrite Hname. reflexivity.
Qed.

Lemma format_user_handle_not_ascii_witness :
  format_user (VDict (<[u "first_name" := VUni []]> {[u "username" := VUni [122; 233]%N]}))
  = Raise UnicodeEncodeError.
Proof.
  apply (format_user_handle_not_ascii _ (VUni []) [122; 233]%N).
  - vm_compute. reflexivity.
  - reflexivity.
  - vm_compute. reflexivity.
  - reflexivity.
Defined.

(** X7. The failure of [format_user] on a reporter without the key
    first_name reaches [format_body]: such an issue has no body, whatever
    else it holds. *)
Theorem format_body_reporter_without_first_name (opts : options) (issue d : dict)
    (content : text) (v_id : value) :
  clean_body (get issue (u "content")) = Ok content ->
  issue !! u "local_id" = Some v_id ->
  issue !! u "reported_by" = Some (VDict d) ->
  d ≠ ∅ -> d !! u "first_name" = None ->
  format_body opts issue = Raise (KeyError (u "first_name")).
Proof.
  intros Hc Hid Hby Hne Hf. unfold format_body. rewrite Hc. py_step. rewrite Hid.
  py_step. unfold format_name. rewrite (has_key_true _ _ _ Hby). py_step. rewrite Hby.
  py_step. rewrite (format_user_no_first_name d Hne Hf). reflexivity.
Qed.

Definition handle_only_issue : dict :=
  <[u "reported_by" := VDict {[u "username" := VUni (u "ada")]}]> issue_seven.

Lemma format_body_reporter_without_first_name_witness :
  format_body acme_options handle_only_issue = Raise (KeyError (u "first_name")).
Proof.
  apply (format_body_reporter_without_first_name acme_options handle_only_issue
           {[u "username" := VUni (u "ada")]} (u "It crashes.") (VInt 7)).
  - vm_compute. reflexivity.
  - vm_compute. reflexivity.
  - vm_compute. reflexivity.
  - intros H. apply (f_equal (fun m : dict => m !! u "username")) in H.
    rewrite lookup_singleton_eq, lookup_empty in H. discriminate.
  - vm_compute. reflexivity.
Defined.

(** X8. A comment whose body and author are ASCII is formatted as the body,
    an empty line, the separator and the line naming the author. *)
Theorem format_comment_ascii (c : comment) (name : text) :
  c_user c = VUni name \/ c_user c = VStr name ->
  is_ascii name = true -> is_ascii (c_body c) = true ->
  format_comment c
  = Ok (c_body c ++ nl ++ nl ++ separator ++ nl ++
        u "Original comment by: " ++ name ++ nl).
Proof.
  intros Huser Hname Hbody. unfold format_comment.
  assert (Henc : encode_utf8 (c_user c) = Ok name).
  { destruct Huser as [-> | ->]; cbn [encode_utf8];
      [rewrite (utf8_ascii _ Hname) | rewrite Hname]; reflexivity. }
  rewrite Henc. py_step. unfold format_unicode. py_step.
  assert (Hsep : is_ascii separator = true) by (vm_compute; reflexivity).
  rewrite Hbody, Hsep, Hname. py_step. vm_compute. reflexivity.
Qed.

Lemma format_comment_ascii_witness :
  format_comment one_comment
  = Ok (u "Fixed." ++ nl ++ nl ++ separator ++ nl ++
        u "Original comment by: Anonymous" ++ nl).
Proof.
  apply (format_comment_ascii one_comment (u "Anonymous")).
  - right. reflexivity.
  - reflexivity.
  - reflexivity.
Defined.

(** X9. A comment that the fetcher kept and whose text has a character
    outside ASCII can never be formatted: the fetcher stores the body as
    UTF-8 bytes and [format_comment] puts them into a unicode template. *)
Theorem format_comment_not_ascii (c : value) (o : comment) (s : text) :
  keep_comment c = Ok (Some o) ->
  subscript c (u "content") = Ok (VUni s) ->
  is_ascii s = false ->
  format_comment o = Raise UnicodeDecodeError \/
  format_comment o = Raise AttributeError.
Proof.
  intros Hkeep Hcontent Hs. unfold keep_comment in Hkeep. rewrite Hcontent in Hkeep.
  cbn [res_bind] in Hkeep.
  assert (Ht : truthy (VUni s) = true) by (destruct s; [discriminate | reflexivity]).
  rewrite Ht in Hkeep. cbn [truthy] in Hkeep.
  destruct s as [|x s]; [discriminate|].
  destruct (subscript c (u "author_info")) as [a| | |]; try discriminate Hkeep.
  cbn [res_bind] in Hkeep.
  destruct (format_user a) as [user| | |] eqn:Huser; try discriminate Hkeep.
  cbn [res_bind] in Hkeep.
  destruct (subscript c (u "utc_created_on")) as [created| | |]; try discriminate Hkeep.
  cbn [res_bind encode_utf8] in Hkeep.
  destruct (subscript c (u "comment_id")) as [number| | |]; try discriminate Hkeep.
  cbn [res_bind] in Hkeep. injection Hkeep as <-.
  unfold format_comment. cbn [c_user c_body].
  destruct user as [| | |name|name| |]; cbn [encode_utf8 res_bind]; auto.
  - left. unfold format_unicode. cbn [map_res to_unicode res_bind].
    rewrite is_ascii_utf8, Hs. reflexivity.
  - destruct (is_ascii name); cbn [res_bind]; [|left; reflexivity].
    left. unfold format_unicode. cbn [map_res to_unicode res_bind].
    rewrite is_ascii_utf8, Hs. reflexivity.
Qed.

Definition accented_comment : value :=
  source_comment 4 (u "2012-07-16 10:00:00+00:00") (VUni [100; 233; 106; 224]%N).

Definition accented_kept : comment :=
  {| c_user := VStr (u "Anonymous");
     c_created_at := VUni (u "2012-07-16 10:00:00+00:00");
     c_body := utf8 [100; 233; 106; 224]%N;
     c_number := VInt 4 |}.

Lemma format_comment_not_ascii_witness :
  keep_comment accented_comment = Ok (Some accented_kept) /\
  format_comment accented_kept = Raise UnicodeDecodeError.
Proof.
  split; [vm_compute; reflexivity|].
  destruct (format_comment_not_ascii accented_comment accented_kept [100; 233; 106; 224]%N)
    as [H | H].
  - vm_compute. reflexivity.
  - vm_compute. reflexivity.
  - reflexivity.
  - exact H.
  - vm_compute in H. discriminate H.
Defined.

End Formatters.

(** * Further properties of the source fetcher *)

Section Fetcher.

Lemma get_issues_turn_error (bb_url : text) (acc : list value) (start_id : Z)
    (w : world) (code : Z) (msg message : text) (rest : list (res value)) :
  bb_answers w = Raise (HTTPError code msg message) :: rest ->
  get_issues_turn bb_url acc start_id w
  = (Raise (HTTPError code msg (connect_hint (page_url bb_url start_id) code msg)),
     {| bb_answers := rest; gh_answers := gh_answers w;
        trace := trace w ++ [BbOpen (page_url bb_url start_id)] |}).
Proof.
  intros Hans. unfold get_issues_turn, bind, lift, bb_open_hinted, bb_open.
  rewrite format_page_url, Hans. reflexivity.
Qed.

(** The offset reached after the pages. *)
Definition offset_after (start_id : Z) (pages : list (list value)) : Z :=
  (start_id + Z.of_nat (length (concat pages)))%Z.

Lemma get_issues_loop_error (pages : list (list value)) :
  forall (turns : nat) (bb_url : text) (acc : list value) (start_id : Z)
         (w : world) (answers more : list (res value)) (code : Z) (msg message : text),
    Forall (fun p => p ≠ []) pages ->
    Forall2 holds_page answers pages ->
    bb_answers w = answers ++ Raise (HTTPError code msg message) :: more ->
    (length pages < turns)%nat ->
    get_issues_loop turns bb_url acc start_id w
    = (Raise (HTTPError code msg
                (connect_hint (page_url bb_url (offset_after start_id pages)) code msg)),
       {| bb_answers := more; gh_answers := gh_answers w;
          trace := trace w ++ opened bb_url (offsets start_id pages) |}).
Proof.
  induction pages as [|p pages IH];
    intros turns bb_url acc start_id w answers more code msg message
           Hne Hpages Hans Hturns.
  - destruct turns as [|turns]; [cbn in Hturns; lia|].
    inversion Hpages; subst. cbn [app] in Hans.
    cbn [get_issues_loop]. unfold bind at 1.
    rewrite (get_issues_turn_error bb_url acc start_id w code msg message more Hans).
    unfold offset_after. cbn [concat length Z.of_nat]. rewrite Z.add_0_r. reflexivity.
  - destruct turns as [|turns]; [cbn in Hturns; lia|].
    inversion Hpages as [|a ? rest ? Ha Hrest]; subst.
    destruct Ha as (d & -> & Hd). inversion Hne as [|? ? Hp Hne']; subst.
    cbn [get_issues_loop]. unfold bind at 1.
    rewrite (get_issues_turn_page bb_url acc start_id w d p
               (rest ++ Raise (HTTPError code msg message) :: more) Hans Hd Hp).
    erewrite IH; [| exact Hne' | exact Hrest | reflexivity | cbn in Hturns; lia].
    cbn [concat offsets opened map bb_answers gh_answers trace].
    unfold offset_after. cbn [concat]. rewrite length_app, Nat2Z.inj_add, Z.add_assoc.
    rewrite <- !app_assoc. reflexivity.
Qed.

(** X10. When a page request fails with an HTTP error after some pages were
    delivered, the fetch raises that error with the hint as its message,
    naming the address it was asking for; the issues of the pages already
    read are not returned, and no further request is made. *)
Theorem get_issues_http_error (bb_url : text) (start_id : Z) (pages : list (list value))
    (w : world) (answers more : list (res value)) (code : Z) (msg message : text) :
  Forall (fun p => p ≠ []) pages ->
  Forall2 holds_page answers pages ->
  bb_answers w = answers ++ Raise (HTTPError code msg message) :: more ->
  exists w',
    get_issues bb_url start_id w
    = (Raise (HTTPError code msg
                (connect_hint (page_url bb_url (offset_after start_id pages)) code msg)), w') /\
    bb_answers w' = more /\
    trace w' = trace w ++ opened bb_url (offsets start_id pages).
Proof.
  intros Hne Hpages Hans. eexists. split.
  - unfold get_issues.
    apply (get_issues_loop_error pages _ bb_url [] start_id w answers more code msg message
             Hne Hpages Hans).
    rewrite Hans, length_app. apply Forall2_length in Hpages. rewrite Hpages.
    cbn [length]. lia.
  - split; reflexivity.
Qed.

Lemma get_issues_http_error_witness :
  exists w',
    get_issues issues_url 0
      {| bb_answers := [page_of [1; 2]%Z; Raise (HTTPError 404 (u "Not Found") [])];
         gh_answers := []; trace := [] |}
    = (Raise (HTTPError 404 (u "Not Found")
                (u "Problem trying to connect to bitbucket (" ++ issues_url
                   ++ u "/?start=2): HTTP Error 404: Not Found"
                   ++ u " Hint: the bitbucket repository name is case-sensitive.")), w') /\
    trace w' = [BbOpen (issues_url ++ u "/?start=0"); BbOpen (issues_url ++ u "/?start=2")].
Proof.
  destruct (get_issues_http_error issues_url 0 [map issue_numbered [1; 2]%Z]
              {| bb_answers := [page_of [1; 2]%Z; Raise (HTTPError 404 (u "Not Found") [])];
                 gh_answers := []; trace := [] |}
              [page_of [1; 2]%Z] [] 404 (u "Not Found") [])
    as (w' & Hrun & _ & Htrace).
  - constructor; [key_ne | constructor].
  - constructor; [|constructor]. eexists. split; [reflexivity | vm_compute; reflexivity].
  - reflexivity.
  - exists w'. split; [rewrite Hrun; vm_compute; reflexivity|].
    rewrite Htrace. vm_compute. reflexivity.
Defined.

(** The item [item] is a record whose name is [name]. *)
Definition named (item name : value) : Prop :=
  exists d : dict, item = VDict d /\ d !! u "name" = Some name.

Lemma names_of_named (items names : list value) :
  Forall2 named items names -> names_of (VList items) = Ok names.
Proof.
  unfold names_of. cbn [iterate res_bind].
  induction 1 as [|item name items names (d & -> & Hd) _ IH]; [reflexivity|].
  cbn [map_res subscript]. rewrite Hd, IH. reflexivity.
Qed.

Lemma milestones_url (bb_url : text) :
  format_str (u "{}/milestones/") [VStr bb_url] = Ok (bb_url ++ u "/milestones/").
Proof. vm_compute. reflexivity. Qed.

Lemma components_url (bb_url : text) :
  format_str (u "{}/components/") [VStr bb_url] = Ok (bb_url ++ u "/components/").
Proof. vm_compute. reflexivity. Qed.

Lemma get_milestones_names (bb_url : text) (w : world)
    (items names : list value) (more : list (res value)) :
  bb_answers w = Ok (VList items) :: more ->
  Forall2 named items names ->
  get_milestones bb_url w
  = (Ok names, {| bb_answers := more; gh_answers := gh_answers w;
                  trace := trace w ++ [BbOpen (bb_url ++ u "/milestones/")] |}).
Proof.
  intros Hans Hnames. unfold get_milestones, bind, lift, bb_open.
  rewrite milestones_url, Hans, (names_of_named _ _ Hnames). reflexivity.
Qed.

Lemma get_components_names (bb_url : text) (w : world)
    (items names : list value) (more : list (res value)) :
  bb_answers w = Ok (VList items) :: more ->
  Forall2 named items names ->
  get_components bb_url w
  = (Ok names, {| bb_answers := more; gh_answers := gh_answers w;
                  trace := trace w ++ [BbOpen (bb_url ++ u "/components/")] |}).
Proof.
  intros Hans Hnames. unfold get_components, bind, lift, bb_open.
  rewrite components_url, Hans, (names_of_named _ _ Hnames). reflexivity.
Qed.

(** X11. The milestones and the components are each fetched with one
    request, to the address of the issues followed by /milestones/ or
    /components/, and what is returned are the names of the records, in the
    order of delivery; the other fields are dropped. *)
Theorem get_milestones_components_names (bb_url : text) (w : world)
    (items names : list value) (more : list (res value)) :
  bb_answers w = Ok (VList items) :: more ->
  Forall2 named items names ->
  get_milestones bb_url w
  = (Ok names, {| bb_answers := more; gh_answers := gh_answers w;
                  trace := trace w ++ [BbOpen (bb_url ++ u "/milestones/")] |}) /\
  get_components bb_url w
  = (Ok names, {| bb_answers := more; gh_answers := gh_answers w;
                  trace := trace w ++ [BbOpen (bb_url ++ u "/components/")] |}).
Proof.
  intros Hans Hnames. split.
  - exact (get_milestones_names bb_url w items names more Hans Hnames).
  - exact (get_components_names bb_url w items names more Hans Hnames).
Qed.

Lemma get_milestones_components_names_witness :
  get_milestones issues_url
    {| bb_answers := [Ok (VList [VDict (<[u "name" := VUni (u "v1")]> {[u "id" := VInt 1]});
                                 VDict {[u "name" := VUni (u "v2")]}])];
       gh_answers := []; trace := [] |}
  = (Ok [VUni (u "v1"); VUni (u "v2")],
     {| bb_answers := []; gh_answers := [];
        trace := [BbOpen (issues_url ++ u "/milestones/")] |}).
Proof.
  refine (proj1 (get_milestones_components_names issues_url
                   {| bb_answers := [Ok (VList [VDict (<[u "name" := VUni (u "v1")]> {[u "id" := VInt 1]});
                                                VDict {[u "name" := VUni (u "v2")]}])];
                      gh_answers := []; trace := [] |}
                   _ [VUni (u "v1"); VUni (u "v2")] [] eq_refl _)).
  repeat constructor; eexists; (split; [reflexivity | vm_compute; reflexivity]).
Defined.

(** X12. A record without a name makes the fetch of the milestones (and of
    the components) raise KeyError after the request was made: nothing is
    returned for the records before it. *)
Theorem get_milestones_missing_name (bb_url : text) (w : world)
    (before after : list value) (names : list value) (d : dict)
    (more : list (res value)) :
  bb_answers w = Ok (VList (before ++ VDict d :: after)) :: more ->
  Forall2 named before names ->
  d !! u "name" = None ->
  get_milestones bb_url w
  = (Raise (KeyError (u "name")),
     {| bb_answers := more; gh_answers := gh_answers w;
        trace := trace w ++ [BbOpen (bb_url ++ u "/milestones/")] |}) /\
  get_components bb_url w
  = (Raise (KeyError (u "name")),
     {| bb_answers := more; gh_answers := gh_answers w;
        trace := trace w ++ [BbOpen (bb_url ++ u "/components/")] |}).
Proof.
  intros Hans Hnames Hd. unfold get_milestones, get_components, bind, lift, bb_open.
  rewrite milestones_url, components_url, Hans.
  assert (H : names_of (VList (before ++ VDict d :: after)) = Raise (KeyError (u "name"))).
  { unfold names_of. cbn [iterate res_bind]. clear Hans.
    induction Hnames as [|item name items names' (d' & -> & Hd') _ IH]; cbn [app map_res subscript].
    - rewrite Hd. reflexivity.
    - rewrite Hd', IH. reflexivity. }
  rewrite H. split; reflexivity.
Qed.

Lemma get_milestones_missing_name_witness :
  fst (get_milestones issues_url
         {| bb_answers := [Ok (VList [VDict {[u "name" := VUni (u "v1")]};
                                      VDict {[u "title" := VUni (u "v2")]}])];
            gh_answers := []; trace := [] |})
  = Raise (KeyError (u "name")).
Proof.
  rewrite (proj1 (get_milestones_missing_name issues_url
                   {| bb_answers := [Ok (VList [VDict {[u "name" := VUni (u "v1")]};
                                                VDict {[u "title" := VUni (u "v2")]}])];
                      gh_answers := []; trace := [] |}
                   [VDict {[u "name" := VUni (u "v1")]}] [] [VUni (u "v1")]
                   {[u "title" := VUni (u "v2")]} [] eq_refl
                   ltac:(repeat constructor; eexists; (split; [reflexivity | vm_compute; reflexivity]))
                   ltac:(vm_compute; reflexivity))).
  reflexivity.
Defined.

End Fetcher.

(** * Further properties of the label provisioner and of the publisher *)

Section TargetFailures.

(** A loop that makes one call per item, against a target whose answer to
    the call after [vs] is the error [e]. *)
Lemma for_each_calls_fail {A : Type} (f : A -> M unit) (mk : A -> event) (e : exn) :
  (forall x w, f x w = (do _ <- gh_call (mk x); ret tt) w) ->
  forall (l : list A) (w : world) (vs : list value) (more : list (res value)),
    gh_answers w = map Ok vs ++ Raise e :: more ->
    (length vs < length l)%nat ->
    for_each f l w
    = (Raise e, {| bb_answers := bb_answers w; gh_answers := more;
                   trace := trace w ++ map mk (take (S (length vs)) l) |}).
Proof.
  intros Hf. induction l as [|x l IH]; intros w vs more Hans Hlen; [cbn in Hlen; lia|].
  cbn [for_each]. unfold bind at 1. rewrite Hf. unfold bind, gh_call. rewrite Hans.
  destruct vs as [|v vs]; cbn [map app length take].
  - reflexivity.
  - unfold ret. erewrite (IH _ vs more); [| reflexivity | cbn in Hlen; lia].
    cbn [bb_answers gh_answers trace]. rewrite <- app_assoc. reflexivity.
Qed.

(** X13. When the target refuses a label, the provisioner raises the error
    of that call and stops there: the labels before it stay created, the
    ones after it are not asked for. *)
Theorem setup_labels_abort (user repo : text) (milestones components : list value)
    (w : world) (vs : list value) (e : exn) (more : list (res value)) :
  gh_answers w = map Ok vs ++ Raise e :: more ->
  (length vs < S (length milestones + length components))%nat ->
  setup_labels user repo milestones components w
  = (Raise e,
     {| bb_answers := bb_answers w; gh_answers := more;
        trace := trace w ++ map (label_event user repo)
                              (take (S (length vs)) (labels_of milestones components)) |}).
Proof.
  intros Hans Hlen. unfold setup_labels.
  apply (for_each_calls_fail _ (label_event user repo) e); [| exact Hans |].
  - intros [label color] w0. reflexivity.
  - unfold labels_of. cbn [length app]. rewrite length_app, !length_map. lia.
Qed.

Lemma setup_labels_abort_witness :
  setup_labels (u "octo") (u "widgets") [VUni (u "v1"); VUni (u "v2")] [VUni (u "ui")]
    {| bb_answers := []; gh_answers := [Ok VNone; Raise URLError; Ok VNone; Ok VNone];
       trace := [] |}
  = (Raise URLError,
     {| bb_answers := []; gh_answers := [Ok VNone; Ok VNone];
        trace := [GhLabelCreate (VStr (u "import")) (u "888888") (u "octo") (u "widgets");
                  GhLabelCreate (VUni (u "v1")) (u "cccccc") (u "octo") (u "widgets")] |}).
Proof.
  exact (setup_labels_abort (u "octo") (u "widgets") [VUni (u "v1"); VUni (u "v2")]
           [VUni (u "ui")]
           {| bb_answers := []; gh_answers := [Ok VNone; Raise URLError; Ok VNone; Ok VNone];
              trace := [] |}
           [VNone] URLError [Ok VNone; Ok VNone] eq_refl ltac:(cbn [length]; lia)).
Defined.

(** X14. An issue without a title is not published at all: [push_issue]
    raises AttributeError before its first call on the target. *)
Theorem push_issue_without_title (user repo : text) (issue : dict) (body : text)
    (comments : list comment) (w : world) :
  issue !! u "title" = None \/ issue !! u "title" = Some VNone ->
  push_issue user repo issue body comments w = (Raise AttributeError, w).
Proof.
  intros Ht. unfold push_issue, bind, lift, get.
  destruct Ht as [-> | ->]; reflexivity.
Qed.

Lemma push_issue_without_title_witness :
  push_issue (u "octo") (u "widgets") issue_seven (u "It crashes.") []
    (target_answers [VInt 1; VNone])
  = (Raise AttributeError, target_answers [VInt 1; VNone]).
Proof.
  apply push_issue_without_title. left. vm_compute. reflexivity.
Defined.

(** X15. An issue without metadata is published by halves: it is created,
    and closed if its status is resolved, and then [push_issue] raises
    KeyError; no label is attached and no comment is added. *)
Theorem push_issue_without_metadata (user repo : text) (issue : dict) (body : text)
    (comments : list comment) (w : world) (t : text) (number v1 : value)
    (rest : list value) :
  issue !! u "title" = Some (VUni t) ->
  issue !! u "metadata" = None ->
  gh_answers w = map Ok (number :: v1 :: rest) ->
  exists w',
    push_issue user repo issue body comments w = (Raise (KeyError (u "metadata")), w') /\
    trace w'
    = trace w ++ GhIssueCreate (utf8 t) body user repo
        :: (if eq_literal (get issue (u "status")) (u "resolved")
            then [GhIssueUpdate number (u "closed") user repo] else []).
Proof.
  intros Ht Hm Hans. unfold push_issue.
  assert (Htitle : get issue (u "title") = VUni t) by (unfold get; rewrite Ht; reflexivity).
  rewrite Htitle. rewrite (bind_lift_ok _ _ w (utf8 t) eq_refl).
  rewrite (bind_ok _ _ w _ number (gh_call_answered _ w number _ Hans)).
  set (w1 := answered w (number :: v1 :: rest) 1 [GhIssueCreate (utf8 t) body user repo]).
  assert (Hans1 : gh_answers w1 = map Ok (v1 :: rest)) by reflexivity.
  destruct (eq_literal (get issue (u "status")) (u "resolved")) eqn:Hres.
  - rewrite (bind_ok _ _ w1
               (answered w1 (v1 :: rest) 1 [GhIssueUpdate number (u "closed") user repo]) tt);
      [| rewrite (bind_ok _ _ w1 _ v1 (gh_call_answered _ w1 v1 _ Hans1)); reflexivity].
    unfold bind, lift. cbn [subscript]. rewrite Hm.
    eexists. split; [reflexivity|].
    unfold w1, answered. cbn [trace]. rewrite <- app_assoc. reflexivity.
  - repeat match goal with
           | |- context [if ?c then @ret unit tt else @ret unit tt] =>
               replace (if c then @ret unit tt else @ret unit tt) with (@ret unit tt)
                 by (destruct c; reflexivity)
           end.
    rewrite (bind_ok _ _ w1 w1 tt eq_refl).
    unfold bind, lift. cbn [subscript]. rewrite Hm.
    eexists. split; [reflexivity|]. reflexivity.
Qed.

Definition issue_without_metadata : dict :=
  <[u "title" := VUni (u "Crash on start")]> {[u "status" := VUni (u "resolved")]}.

Lemma push_issue_without_metadata_witness :
  exists w',
    push_issue (u "octo") (u "widgets") issue_without_metadata (u "It crashes.") [one_comment]
      (target_answers [VInt 1; VNone; VNone; VNone])
    = (Raise (KeyError (u "metadata")), w') /\
    trace w' = [GhIssueCreate (u "Crash on start") (u "It crashes.") (u "octo") (u "widgets");
                GhIssueUpdate (VInt 1) (u "closed") (u "octo") (u "widgets")].
Proof.
  destruct (push_issue_without_metadata (u "octo") (u "widgets") issue_without_metadata
              (u "It crashes.") [one_comment] (target_answers [VInt 1; VNone; VNone; VNone])
              (u "Crash on start") (VInt 1) VNone [VNone; VNone])
    as (w' & Hrun & Htrace).
  - vm_compute. reflexivity.
  - vm_compute. reflexivity.
  - reflexivity.
  - exists w'. split; [exact Hrun|]. rewrite Htrace. vm_compute. reflexivity.
Defined.

End TargetFailures.

(** * Further properties of the orchestrator *)

Section Orchestrator.

(** ** The sort is stable *)

Lemma insert_by_filter {A : Type} (lt : A -> A -> bool) (p : A -> bool) (x : A) (l : list A) :
  (forall y, In y l -> p y = true -> p x = true -> lt y x = false) ->
  List.filter p (insert_by lt x l) = List.filter p (x :: l).
Proof.
  induction l as [|y l IH]; intros Hp; [reflexivity|].
  cbn [insert_by]. destruct (lt y x) eqn:Hyx; [|reflexivity].
  cbn [List.filter]. rewrite IH by (intros z Hz; apply Hp; right; exact Hz).
  cbn [List.filter]. destruct (p y) eqn:Hy, (p x) eqn:Hx; try reflexivity.
  rewrite (Hp y (or_introl eq_refl) Hy eq_refl) in Hyx. discriminate.
Qed.

Lemma stable_sort_filter {A : Type} (lt : A -> A -> bool) (p : A -> bool) (l : list A) :
  (forall x y, In x l -> In y l -> p x = true -> p y = true -> lt y x = false) ->
  List.filter p (stable_sort lt l) = List.filter p l.
Proof.
  induction l as [|x l IH]; intros Hp; [reflexivity|].
  unfold stable_sort in *. cbn [foldr]. rewrite insert_by_filter.
  - cbn [List.filter]. rewrite IH; [reflexivity|].
    intros a b Ha Hb. apply Hp; right; assumption.
  - intros y Hy Hpy Hpx. apply Hp; [left; reflexivity | right | exact Hpx | exact Hpy].
    apply list_elem_of_In. apply list_elem_of_In in Hy.
    pose proof (stable_sort_perm lt l) as Hperm. unfold stable_sort in Hperm.
    rewrite <- Hperm. exact Hy.
Qed.

Lemma filter_map_snd {A B : Type} (p : B -> bool) (l : list (A * B)) :
  List.filter p (map snd l) = map snd (List.filter (fun kx => p (snd kx)) l).
Proof.
  induction l as [|kx l IH]; [reflexivity|]. cbn [map List.filter].
  destruct (p (snd kx)); cbn [map]; rewrite IH; reflexivity.
Qed.

(** The issue has the integer identifier [z]. *)
Definition id_is (z : Z) (issue : value) : bool :=
  match local_id_of issue with
  | Ok (VInt z') => (z =? z')%Z
  | _ => false
  end.

(** X16. The sort of the issues is stable: the issues that share an
    identifier come out in the order in which they were fetched. *)
Theorem sorted_issues_stable (issues ordered : list value) (z : Z) :
  sorted local_id_of issues = Ok ordered ->
  List.filter (id_is z) ordered = List.filter (id_is z) issues.
Proof.
  unfold sorted. destruct (map_res _ issues) as [keyed| | |] eqn:Hkeyed; try discriminate.
  cbn [res_bind]. destruct (forallb _ keyed); [|discriminate]. intros [= <-].
  destruct (keyed_inv local_id_of issues keyed Hkeyed) as [Hsnd Hall].
  rewrite <- Hsnd, !filter_map_snd. f_equal. apply stable_sort_filter.
  intros x y Hx Hy Hpx Hpy. rewrite Forall_forall in Hall.
  pose proof (Hall x (proj2 (list_elem_of_In _ _) Hx)) as Hkx.
  pose proof (Hall y (proj2 (list_elem_of_In _ _) Hy)) as Hky.
  unfold id_is in Hpx, Hpy. rewrite Hkx in Hpx. rewrite Hky in Hpy.
  unfold keyed_lt.
  destruct (fst x) as [| |zx| | | |]; try discriminate Hpx.
  destruct (fst y) as [| |zy| | | |]; try discriminate Hpy.
  apply Z.eqb_eq in Hpx, Hpy. subst zx zy.
  unfold value_lt. cbn. apply Z.ltb_irrefl.
Qed.

Lemma sorted_issues_stable_witness :
  sorted local_id_of
    [fetched_issue 9 (u "later"); fetched_issue 7 (u "first"); fetched_issue 7 (u "second")]
  = Ok [fetched_issue 7 (u "first"); fetched_issue 7 (u "second"); fetched_issue 9 (u "later")]
  /\
  List.filter (id_is 7)
    [fetched_issue 7 (u "first"); fetched_issue 7 (u "second"); fetched_issue 9 (u "later")]
  = [fetched_issue 7 (u "first"); fetched_issue 7 (u "second")].
Proof.
  assert (H : sorted local_id_of
    [fetched_issue 9 (u "later"); fetched_issue 7 (u "first"); fetched_issue 7 (u "second")]
  = Ok [fetched_issue 7 (u "first"); fetched_issue 7 (u "second"); fetched_issue 9 (u "later")])
    by (vm_compute; reflexivity).
  split; [exact H|].
  rewrite (sorted_issues_stable _ _ 7 H). vm_compute. reflexivity.
Defined.

(** ** An issue without identifier *)

Lemma keyed_missing (before after : list value) (d : dict) :
  Forall (fun i => exists k, local_id_of i = Ok k) before ->
  d !! u "local_id" = None ->
  map_res (fun x => let! k := local_id_of x in Ok (k, x)) (before ++ VDict d :: after)
  = Raise (KeyError (u "local_id")).
Proof.
  intros Hbefore Hd. induction Hbefore as [|i before (k & Hk) _ IH]; cbn [app map_res].
  - unfold local_id_of. cbn [subscript]. rewrite Hd. reflexivity.
  - rewrite Hk. cbn [res_bind]. rewrite IH. reflexivity.
Qed.

(** X17. When one of the fetched issues has no identifier, the loop raises
    KeyError while it sorts: no comment is requested and no issue is
    published, not even the ones that come first. *)
Theorem migrate_all_missing_id (opts : options) (bb_url user repo : text)
    (before after : list value) (d : dict) (w : world) :
  Forall (fun i => exists k, local_id_of i = Ok k) before ->
  d !! u "local_id" = None ->
  migrate_all opts bb_url user repo (before ++ VDict d :: after) w
  = (Raise (KeyError (u "local_id")), w).
Proof.
  intros Hbefore Hd. unfold migrate_all, bind, lift. fold local_id_of. unfold sorted.
  rewrite (keyed_missing before after d Hbefore Hd). reflexivity.
Qed.

Lemma migrate_all_missing_id_witness :
  migrate_all acme_options issues_url (u "octo") (u "widgets")
    [fetched_issue 3 (u "earlier"); VDict {[u "title" := VUni (u "lost")]}] two_issue_world
  = (Raise (KeyError (u "local_id")), two_issue_world).
Proof.
  apply (migrate_all_missing_id acme_options issues_url (u "octo") (u "widgets")
           [fetched_issue 3 (u "earlier")] [] {[u "title" := VUni (u "lost")]}).
  - constructor; [|constructor]. eexists. vm_compute. reflexivity.
  - vm_compute. reflexivity.
Defined.

(** ** What a run does not do *)

(** [m] adds events to the trace, none of which satisfies [p]. *)
Definition avoids {A : Type} (p : event -> bool) (m : M A) : Prop :=
  forall w, exists es, trace (snd (m w)) = trace w ++ es /\ List.filter p es = [].

(** A call on the target. *)
Definition is_gh (e : event) : bool :=
  match e with
  | BbOpen _ | Print _ => false
  | _ => true
  end.

Lemma avoids_lift {A : Type} (p : event -> bool) (r : res A) : avoids p (lift r).
Proof. intros w. exists []. cbn. rewrite app_nil_r. split; reflexivity. Qed.

Lemma avoids_ret {A : Type} (p : event -> bool) (a : A) : avoids p (ret a).
Proof. intros w. exists []. cbn. rewrite app_nil_r. split; reflexivity. Qed.

Lemma avoids_bind {A B : Type} (p : event -> bool) (m : M A) (k : A -> M B) :
  avoids p m -> (forall a, avoids p (k a)) -> avoids p (bind m k).
Proof.
  intros Hm Hk w. unfold bind. destruct (Hm w) as (es1 & Ht1 & Hp1).
  destruct (m w) as [[a|e| |] w1]; cbn [snd] in *; try (exists es1; split; assumption).
  destruct (Hk a w1) as (es2 & Ht2 & Hp2). exists (es1 ++ es2).
  rewrite Ht2, Ht1, app_assoc, List.filter_app, Hp1, Hp2. split; reflexivity.
Qed.

Lemma avoids_bb_open (p : event -> bool) (url : text) :
  p (BbOpen url) = false -> avoids p (bb_open url).
Proof.
  intros Hp w. exists [BbOpen url]. split; [apply bb_open_logs|].
  cbn [List.filter]. rewrite Hp. reflexivity.
Qed.

Lemma avoids_bb_open_hinted (p : event -> bool) (url : text) :
  p (BbOpen url) = false -> avoids p (bb_open_hinted url).
Proof.
  intros Hp w. exists [BbOpen url]. split; [|cbn [List.filter]; rewrite Hp; reflexivity].
  unfold bb_open_hinted. pose proof (bb_open_logs url w) as H.
  destruct (bb_open url w) as [[a|e| |] w']; try exact H. destruct e; exact H.
Qed.

Lemma avoids_print (p : event -> bool) (items : list value) :
  p (Print items) = false -> avoids p (print items).
Proof.
  intros Hp w. exists [Print items]. split; [reflexivity|].
  cbn [List.filter]. rewrite Hp. reflexivity.
Qed.

Lemma avoids_for_each {A : Type} (p : event -> bool) (f : A -> M unit) (l : list A) :
  (forall x, avoids p (f x)) -> avoids p (for_each f l).
Proof.
  intros Hf. induction l as [|x l IH]; cbn [for_each]; [apply avoids_ret|].
  apply avoids_bind; [apply Hf | intros _; exact IH].
Qed.

Ltac avoids_step :=
  first [ apply avoids_ret | apply avoids_lift
        | apply avoids_bb_open; reflexivity | apply avoids_bb_open_hinted; reflexivity
        | apply avoids_print; reflexivity
        | apply avoids_bind; [|intros ?] ].

Lemma get_comments_no_call (bb_url : text) (issue : value) :
  avoids is_gh (get_comments bb_url issue).
Proof. unfold get_comments. repeat avoids_step. Qed.

(** X18. In a dry run the loop over the issues makes no call on the target:
    whatever the issues and whatever the source answers, it only requests
    comments and prints. *)
Theorem dry_run_no_call (opts : options) (bb_url user repo : text)
    (issues : list value) :
  dry_run opts = true ->
  avoids is_gh (migrate_all opts bb_url user repo issues).
Proof.
  intros Hdry. unfold migrate_all. apply avoids_bind; [apply avoids_lift | intros ordered].
  apply avoids_for_each. intros issue. unfold migrate_issue. rewrite Hdry.
  apply avoids_bind; [apply get_comments_no_call | intros comments].
  destruct issue; repeat avoids_step.
Qed.

Definition dry_options : options :=
  {| bitbucket_accountname := u "acme"; bitbucket_repo := u "widgets";
     github_username := u "octo"; github_repo := u "octo/widgets";
     dry_run := true; start := 0; bitbucket_username := false |}.

Lemma dry_run_no_call_witness :
  exists es,
    trace (snd (migrate_all dry_options issues_url (u "octo") (u "widgets")
                  [fetched_issue 9 (u "later"); fetched_issue 3 (u "earlier")]
                  two_issue_world))
    = trace two_issue_world ++ es /\
    List.filter is_gh es = [].
Proof.
  exact (dry_run_no_call dry_options issues_url (u "octo") (u "widgets")
           [fetched_issue 9 (u "later"); fetched_issue 3 (u "earlier")] eq_refl
           two_issue_world).
Defined.

(** ** The target repository argument *)

Lemma split_from_length (cur s : text) :
  length (split_from 47 cur s) = S (length (List.filter (N.eqb 47) s)).
Proof.
  revert cur. induction s as [|c s IH]; intros cur; cbn [split_from List.filter];
    [reflexivity|].
  rewrite (N.eqb_sym 47 c). destruct (c =? 47)%N; cbn [length]; rewrite IH; reflexivity.
Qed.

(** [m] never ends well and makes no call on the target. *)
Definition barred {A : Type} (m : M A) : Prop :=
  forall w, (forall a, fst (m w) ≠ Ok a) /\
            exists es, trace (snd (m w)) = trace w ++ es /\ List.filter is_gh es = [].

Lemma barred_bind {A B : Type} (m : M A) (k : A -> M B) :
  avoids is_gh m -> (forall a, barred (k a)) -> barred (bind m k).
Proof.
  intros Hm Hk w. unfold bind. destruct (Hm w) as (es1 & Ht1 & Hp1).
  destruct (m w) as [[a|e| |] w1]; cbn [fst snd] in *;
    try (split; [discriminate | exists es1; split; assumption]).
  destruct (Hk a w1) as (Hfail & es2 & Ht2 & Hp2). split; [exact Hfail|].
  exists (es1 ++ es2). rewrite Ht2, Ht1, app_assoc, List.filter_app, Hp1, Hp2.
  split; reflexivity.
Qed.

Lemma get_issues_loop_no_call (turns : nat) :
  forall (bb_url : text) (acc : list value) (start_id : Z),
    avoids is_gh (get_issues_loop turns bb_url acc start_id).
Proof.
  induction turns as [|turns IH]; intros bb_url acc start_id; cbn [get_issues_loop];
    [apply avoids_lift|].
  apply avoids_bind.
  - unfold get_issues_turn. apply avoids_bind; [apply avoids_lift | intros url].
    apply avoids_bind; [apply avoids_bb_open_hinted; reflexivity | intros result].
    apply avoids_bind; [apply avoids_lift | intros page].
    destruct (negb (truthy page)); repeat avoids_step.
  - intros [done | acc' start']; [apply avoids_ret | apply IH].
Qed.

(** X19. When the target repository given on the command line does not
    hold exactly one slash, the main program never ends well and never
    calls the target; the failure comes after the fetches from the source,
    which are made first. *)
Theorem main_bad_target_repo (opts : options) :
  length (List.filter (N.eqb 47) (github_repo opts)) ≠ 1%nat ->
  barred (main opts).
Proof.
  intros Hslashes. unfold main.
  apply barred_bind; [apply avoids_lift | intros bb_url].
  apply barred_bind; [unfold get_milestones; repeat avoids_step | intros milestones].
  apply barred_bind; [unfold get_components; repeat avoids_step | intros components].
  apply barred_bind.
  { intros w. unfold get_issues. apply get_issues_loop_no_call. }
  intros issues.
  pose proof (split_from_length [] (github_repo opts)) as Hlen.
  fold (split_slash (github_repo opts)) in Hlen.
  destruct (split_slash (github_repo opts)) as [|a [|b [|c rest]]];
    try (intros w; split; [discriminate|];
         exists []; cbn; rewrite app_nil_r; split; reflexivity).
  cbn [length] in Hlen. exfalso. apply Hslashes. lia.
Qed.

Definition slashless_options : options :=
  {| bitbucket_accountname := u "acme"; bitbucket_repo := u "widgets";
     github_username := u "octo"; github_repo := u "widgets";
     dry_run := false; start := 0; bitbucket_username := false |}.

Lemma main_bad_target_repo_witness :
  fst (main slashless_options
         {| bb_answers := [Ok (VList []); Ok (VList []); page_of []];
            gh_answers := map Ok [VNone; VNone]; trace := [] |})
  = Raise ValueError /\
  barred (main slashless_options).
Proof.
  split; [vm_compute; reflexivity|].
  apply main_bad_target_repo. vm_compute. discriminate.
Defined.

(** ** A dry run and the labels *)

Definition no_slash (s : text) : bool := forallb (fun c => negb (c =? 47)%N) s.

Lemma split_from_no_slash (s : text) :
  forall cur, no_slash s = true -> split_from 47 cur s = [rev cur ++ s].
Proof.
  induction s as [|c s IH]; intros cur H; cbn [split_from].
  - rewrite app_nil_r. reflexivity.
  - cbn [no_slash forallb] in H. apply andb_true_iff in H as [Hc Hs].
    apply negb_true_iff in Hc. rewrite Hc, (IH _ Hs). cbn [rev].
    rewrite <- app_assoc. reflexivity.
Qed.

Lemma split_slash_pair (user repo : text) :
  no_slash user = true -> no_slash repo = true ->
  split_slash (user ++ u "/" ++ repo) = [user; repo].
Proof.
  intros Hu Hr. unfold split_slash.
  assert (H : forall cur, split_from 47 cur (user ++ u "/" ++ repo)
                          = [rev cur ++ user; repo]).
  { induction user as [|c user IH]; intros cur.
    - change ([] ++ u "/" ++ repo) with (47%N :: repo). cbn [split_from].
      rewrite N.eqb_refl, (split_from_no_slash repo [] Hr), app_nil_r. reflexivity.
    - cbn [no_slash forallb] in Hu. apply andb_true_iff in Hu as [Hc Hu].
      apply negb_true_iff in Hc. cbn [app split_from]. rewrite Hc, (IH Hu).
      cbn [rev]. rewrite <- app_assoc. reflexivity. }
  exact (H []).
Qed.

Definition repositories_url (account repo : text) : text :=
  u "https://api.bitbucket.org/1.0/repositories/" ++ account ++ u "/" ++ repo ++ u "/issues".

Lemma main_url (account repo : text) :
  format_str (u "https://api.bitbucket.org/1.0/repositories/{}/{}/issues")
    [VStr account; VStr repo]
  = Ok (repositories_url account repo).
Proof. vm_compute. reflexivity. Qed.

Lemma filter_label_events (user repo : text) (labels : list (value * text)) :
  List.filter is_gh (map (label_event user repo) labels) = map (label_event user repo) labels.
Proof. induction labels as [|lc labels IH]; [reflexivity|]. cbn. rewrite IH. reflexivity. Qed.

(** X20. A dry run is not without effect on the target: the labels are
    provisioned before the loop looks at the flag.  Against a source that
    delivers the milestones, the components and no issue, and a target that
    answers, the main program in a dry run ends well and its calls on the
    target are the creations of all the labels. *)
Theorem main_dry_run_creates_labels (opts : options) (user repo : text) (w : world)
    (ms_items cs_items milestones components : list value) (page : dict)
    (more : list (res value)) (vs : list value) :
  dry_run opts = true ->
  github_repo opts = user ++ u "/" ++ repo ->
  no_slash user = true -> no_slash repo = true ->
  bb_answers w = Ok (VList ms_items) :: Ok (VList cs_items) :: Ok (VDict page) :: more ->
  Forall2 named ms_items milestones ->
  Forall2 named cs_items components ->
  page !! u "issues" = Some (VList []) ->
  gh_answers w = map Ok vs ->
  (S (length milestones + length components) <= length vs)%nat ->
  exists w',
    main opts w = (Ok tt, w') /\
    List.filter is_gh (trace w')
    = List.filter is_gh (trace w)
        ++ map (label_event user repo) (labels_of milestones components).
Proof.
  intros Hdry Hrepo Hu Hr Hans Hms Hcs Hpage Hgh Hlen. unfold main.
  rewrite (bind_lift_ok _ _ w _ (main_url _ _)).
  set (bb_url := repositories_url (bitbucket_accountname opts) (bitbucket_repo opts)).
  rewrite (bind_ok _ _ w _ milestones
             (get_milestones_names bb_url w ms_items milestones _ Hans Hms)).
  set (w1 := {| bb_answers := _ |}).
  rewrite (bind_ok _ _ w1 _ components
             (get_components_names bb_url w1 cs_items components _ eq_refl Hcs)).
  set (w2 := {| bb_answers := _ |}).
  assert (Hissues : get_issues bb_url (start opts) w2
                    = (Ok [], {| bb_answers := more; gh_answers := gh_answers w2;
                                 trace := trace w2 ++ opened bb_url (offsets (start opts) []) |})).
  { unfold get_issues.
    apply (get_issues_loop_pages [] _ bb_url [] (start opts) w2 [Ok (VDict page)] more).
    - constructor.
    - constructor; [|constructor]. exists page. split; [reflexivity | exact Hpage].
    - reflexivity.
    - cbn [length]. lia. }
  rewrite (bind_ok _ _ w2 _ [] Hissues). set (w3 := {| bb_answers := more |}).
  rewrite Hrepo, (split_slash_pair user repo Hu Hr).
  assert (Hlabels : setup_labels user repo milestones components w3
                    = (Ok tt, answered w3 vs (length (labels_of milestones components))
                                (map (label_event user repo) (labels_of milestones components)))).
  { unfold setup_labels. apply (for_each_calls _ (label_event user repo)).
    - intros [label color] w0. reflexivity.
    - exact Hgh.
    - unfold labels_of. cbn [length app]. rewrite length_app, !length_map. lia. }
  rewrite (bind_ok _ _ w3 _ tt Hlabels).
  eexists. split; [reflexivity|].
  unfold answered, w3, w2, w1. cbn [trace gh_answers bb_answers offsets opened map].
  rewrite !List.filter_app, filter_label_events. cbn [List.filter is_gh].
  rewrite !app_nil_r. reflexivity.
Qed.

Lemma main_dry_run_creates_labels_witness :
  exists w',
    main dry_options
      {| bb_answers := [Ok (VList [VDict {[u "name" := VUni (u "v1")]}]); Ok (VList []);
                        page_of []];
         gh_answers := map Ok [VNone; VNone]; trace := [] |}
    = (Ok tt, w') /\
    List.filter is_gh (trace w')
    = [GhLabelCreate (VStr (u "import")) (u "888888") (u "octo") (u "widgets");
       GhLabelCreate (VUni (u "v1")) (u "cccccc") (u "octo") (u "widgets")].
Proof.
  destruct (main_dry_run_creates_labels dry_options (u "octo") (u "widgets")
              {| bb_answers := [Ok (VList [VDict {[u "name" := VUni (u "v1")]}]); Ok (VList []);
                                page_of []];
                 gh_answers := map Ok [VNone; VNone]; trace := [] |}
              [VDict {[u "name" := VUni (u "v1")]}] [] [VUni (u "v1")] []
              {[u "issues" := VList []]} [] [VNone; VNone])
    as (w' & Hrun & Htrace).
  - reflexivity.
  - reflexivity.
  - reflexivity.
  - reflexivity.
  - reflexivity.
  - repeat constructor. eexists. split; [reflexivity | vm_compute; reflexivity].
  - constructor.
  - vm_compute. reflexivity.
  - reflexivity.
  - cbn [length]. lia.
  - exists w'. split; [exact Hrun|]. rewrite Htrace. reflexivity.
Defined.

(** ** The request for the comments *)

(** X21. For an issue with an identifier, the comments are asked for with
    exactly one request, to the address of the issues followed by the
    identifier and /comments/, and nothing else is done, whatever the source
    answers. *)
Theorem get_comments_one_request (bb_url : text) (issue v_id : value) (id : text)
    (w : world) :
  subscript issue (u "local_id") = Ok v_id ->
  to_str v_id = Ok id ->
  trace (snd (get_comments bb_url issue w))
  = trace w ++ [BbOpen (bb_url ++ u "/" ++ id ++ u "/comments/")].
Proof.
  intros Hid Hid'. unfold get_comments.
  rewrite (bind_lift_ok _ _ w v_id Hid).
  rewrite (bind_lift_ok _ _ w _ (comments_url bb_url v_id id Hid')).
  unfold bind, lift.
  pose proof (bb_open_logs (bb_url ++ u "/" ++ id ++ u "/comments/") w) as Hlog.
  destruct (bb_open _ w) as [[a|e| |] w1]; cbn [snd] in *; try exact Hlog.
  destruct (iterate a) as [items| | |]; cbn [snd]; try exact Hlog.
  destruct (sorted _ items) as [ordered| | |]; cbn [snd]; exact Hlog.
Qed.

Lemma get_comments_one_request_witness :
  trace (snd (get_comments issues_url (issue_numbered 7)
                {| bb_answers := [Raise URLError]; gh_answers := []; trace := [] |}))
  = [BbOpen (issues_url ++ u "/7/comments/")].
Proof.
  refine (eq_trans (get_comments_one_request issues_url (issue_numbered 7) (VInt 7) (u "7")
                      _ _ _) _).
  - vm_compute. reflexivity.
  - vm_compute. reflexivity.
  - vm_compute. reflexivity.
Defined.

End Orchestrator.
